(** * hubot-redis-brain: the Redis persistence adapter of a hubot brain

    A shallow embedding of [src/redis-brain.js] and the properties of its
    observable contract.

    The script is a thin bridge between three collaborators that are not
    part of it: the Node runtime ([process.env], [Url.parse], [JSON]), the
    Redis client, and the host's brain and logger.  The embedding keeps
    that shape:

    - JavaScript values are an inductive type [value]; the coercions the
      script relies on ([ToBoolean], [ToString], property access, [for-of],
      strict equality) are functions on it;
    - [process.env] is a finite map from names to strings;
    - the runtime functions the script calls are the methods of a class
      [NodeRuntime]; a concrete instance is given at the end of the
      definitions and is used to evaluate the examples;
    - every call the script makes on the client, the brain or the logger is
      an [event]; a piece of code is a computation [M A] that produces a
      trace of events and either returns or throws. *)

From Stdlib Require Import ZArith Ascii String List Bool Lia.
From Stdlib Require Import DecimalString DecimalZ DecimalPos.
From stdpp Require Import base option list strings gmap.

Local Open Scope stdpp_scope.

(** ** JavaScript values *)

#[local] Set Warnings "-register-all".

(** The values the script handles: [undefined], and what [JSON.parse] can
    return.  Numbers are the integer-valued ones.  An object is the list of
    its own enumerable properties, in enumeration order. *)
Inductive value : Type :=
| VUndefined
| VNull
| VBool (b : bool)
| VNum (n : Z)
| VStr (s : string)
| VArr (elements : list value)
| VObj (fields : list (string * value)).

(** [ToBoolean]: what [if (v)] and [!v] test. *)
Definition truthy (v : value) : bool :=
  match v with
  | VUndefined | VNull => false
  | VBool b => b
  | VNum n => negb (n =? 0)%Z
  | VStr s => negb (String.eqb s "")
  | VArr _ | VObj _ => true
  end.

(** An optional string ([string | null | undefined]) under [ToBoolean]. *)
Definition truthy_str (o : option string) : bool :=
  match o with
  | Some s => negb (String.eqb s "")
  | None => false
  end.

(** [Number.prototype.toString] on an integer. *)
Definition Z_to_string (n : Z) : string :=
  NilZero.string_of_int (Z.to_int n).

(** The strings of a list, with a separator between them. *)
Fixpoint join (sep : string) (l : list string) : string :=
  match l with
  | [] => ""
  | [s] => s
  | s :: l' => s +:+ sep +:+ join sep l'
  end.

(** [ToString], as applied by [+] on a string and by property keys.  An
    array prints as [Array.prototype.join] does: its elements separated by
    commas, [null] and [undefined] as the empty string. *)
Fixpoint to_string (v : value) : string :=
  match v with
  | VUndefined => "undefined"
  | VNull => "null"
  | VBool true => "true"
  | VBool false => "false"
  | VNum n => Z_to_string n
  | VStr s => s
  | VArr xs =>
      join "," (map (λ x, match x with
                          | VUndefined | VNull => ""
                          | _ => to_string x
                          end) xs)
  | VObj _ => "[object Object]"
  end.

(** ** JavaScript string methods used by the script *)

Fixpoint drop_chars (n : nat) (s : string) : string :=
  match n, s with
  | S n', String _ s' => drop_chars n' s'
  | _, _ => s
  end.

(** [s.replace(pat, rep)] with a string pattern: the first occurrence only. *)
Fixpoint String_replace (pat rep s : string) : string :=
  if String.prefix pat s then rep +:+ drop_chars (String.length pat) s
  else match s with
       | "" => ""
       | String c s' => String c (String_replace pat rep s')
       end.

(** [s.split(sep)] with a one-character separator. *)
Fixpoint String_split (sep : ascii) (s : string) : list string :=
  match s with
  | "" => [""]
  | String c s' =>
      if Ascii.eqb c sep then "" :: String_split sep s'
      else match String_split sep s' with
           | seg :: segs => String c seg :: segs
           | [] => [String c ""]
           end
  end.

(** [/pat/.test(s)] for a pattern without metacharacters: [pat] occurs
    somewhere in [s]. *)
Fixpoint RegExp_test (pat s : string) : bool :=
  String.prefix pat s ||
  match s with
  | "" => false
  | String _ s' => RegExp_test pat s'
  end.

(** [s.includes(c)] for a character. *)
Definition has_char (c : ascii) (s : string) : bool :=
  existsb (Ascii.eqb c) (list_ascii_of_string s).

(** ** Property access, iteration and equality *)

(** What a script can throw here: the runtime's [TypeError] and
    [SyntaxError], or an error object handed to it by the Redis client. *)
Record error := { message : string; stack : string }.

Inductive exn :=
| TypeError
| SyntaxError
| Thrown (e : error).

Inductive outcome (A : Type) :=
| Returned (a : A)
| Threw (e : exn).
Arguments Returned {A} a.
Arguments Threw {A} e.

(** Own property of an object: the first binding of the key. *)
Fixpoint own_property (fs : list (string * value)) (k : string) : option value :=
  match fs with
  | [] => None
  | (k', v) :: fs' => if String.eqb k' k then Some v else own_property fs' k
  end.

(** A canonical array index: the decimal form of a natural number. *)
Definition array_index (k : string) : option nat :=
  match NilZero.int_of_string k with
  | Some d =>
      let n := Z.of_int d in
      if (0 <=? n)%Z && String.eqb (Z_to_string n) k then Some (Z.to_nat n) else None
  | None => None
  end.

Definition chars (s : string) : list value :=
  map (λ c, VStr (String c "")) (list_ascii_of_string s).

(** A lookup that found nothing reads as [undefined]. *)
Definition or_undefined (o : option value) : value :=
  match o with
  | Some v => v
  | None => VUndefined
  end.

Definition property (fs : list (string * value)) (k : string) : value :=
  or_undefined (own_property fs k).

(** [v[k]].  Reading a property of [undefined] or [null] throws a
    [TypeError]; a missing property reads as [undefined].  Arrays and
    strings answer [length] and their indices.  Properties inherited from
    the built-in prototypes (methods such as [toString]) are not values of
    this model and read as [undefined]. *)
Definition get (v : value) (k : string) : outcome value :=
  match v with
  | VUndefined | VNull => Threw TypeError
  | VObj fs => Returned (property fs k)
  | VArr xs =>
      if String.eqb k "length" then Returned (VNum (Z.of_nat (length xs)))
      else Returned (or_undefined (n ← array_index k; xs !! n))
  | VStr s =>
      if String.eqb k "length" then Returned (VNum (Z.of_nat (String.length s)))
      else Returned (or_undefined (n ← array_index k; chars s !! n))
  | VBool _ | VNum _ => Returned VUndefined
  end.

(** The values a [for (let x of v)] loop visits: the elements of an array,
    the characters of a string; anything else is not iterable. *)
Definition iterate (v : value) : outcome (list value) :=
  match v with
  | VArr xs => Returned xs
  | VStr s => Returned (chars s)
  | _ => Threw TypeError
  end.

(** [a === b] when [b] is a primitive.  Objects and arrays are compared by
    identity, so none is equal to a primitive. *)
Definition strict_equal (a b : value) : bool :=
  match a, b with
  | VUndefined, VUndefined | VNull, VNull => true
  | VBool x, VBool y => Bool.eqb x y
  | VNum x, VNum y => (x =? y)%Z
  | VStr x, VStr y => String.eqb x y
  | _, _ => false
  end.

(** ** The Node runtime *)

(** The object [Url.parse] returns, with the fields the script reads; a
    field that is [null] is [None]. *)
Record UrlObject := {
  auth : option string;
  hostname : option string;
  port : option string;
  pathname : option string;
  query : option string;
  path : option string
}.

(** The functions of the runtime the script calls.  [JSON_parse] returns
    [None] where [JSON.parse] throws a [SyntaxError]. *)
Class NodeRuntime := {
  Url_parse : string → UrlObject;
  JSON_parse : string → option value;
  JSON_stringify : value → string
}.

(** The keys of an object are distinct. *)
Fixpoint distinct_keys (fs : list (string * value)) : bool :=
  match fs with
  | [] => true
  | (k, _) :: fs' => negb (existsb (λ kv, String.eqb kv.1 k) fs') && distinct_keys fs'
  end.

(** A JSON-serializable value: no [undefined] inside, and the keys of every
    object are distinct. *)
Fixpoint is_json (v : value) : bool :=
  match v with
  | VUndefined => false
  | VNull | VBool _ | VNum _ | VStr _ => true
  | VArr xs => forallb is_json xs
  | VObj fs => distinct_keys fs && forallb (λ kv, is_json kv.2) fs
  end.

(** What the script needs of [JSON]: parsing the text of a serializable
    value gives the value back, and that text is never the empty string. *)
Definition JSON_round_trip (R : NodeRuntime) : Prop :=
  ∀ d, is_json d = true →
       JSON_parse (JSON_stringify d) = Some d ∧ JSON_stringify d ≠ "".

(** [process.env]: the variables that are set, with their values. *)
Abbreviation environment := (gmap string string).

(** [process.env.NAME] as a JavaScript value. *)
Definition env_value (env : environment) (name : string) : value :=
  match env !! name with
  | Some s => VStr s
  | None => VUndefined
  end.

(** ** Effects *)

(** The calls the script makes on its collaborators. *)
Inductive event :=
| LoggerInfo (msg : string)
| LoggerDebug (msg : string)
| LoggerError (msg : string)
| CreateClientSocket (socket_path : option string)
| CreateClient (port hostname : option string) (no_ready_check : bool)
| SetAutoSave (enabled : bool)
| MergeData (data : value)
| BrainEmit (name : string)
| BrainOn (name : string)
| ClientOn (name : string)
| ClientAuth (password : option string)
| ClientGet (key : string)
| ClientSet (key text : string)
| ClientQuit.

(** A computation: the calls made so far, and how it ended. *)
Definition M (A : Type) : Type := list event * outcome A.

Definition ret {A} (a : A) : M A := ([], Returned a).
Definition throw {A} (e : exn) : M A := ([], Threw e).
Definition call (ev : event) : M unit := ([ev], Returned tt).
Definition lift {A} (o : outcome A) : M A := ([], o).

Definition bind {A B} (m : M A) (k : A → M B) : M B :=
  match m with
  | (t, Returned a) => let '(t', o) := k a in (t ++ t', o)
  | (t, Threw e) => (t, Threw e)
  end.

Declare Scope js_scope.
Delimit Scope js_scope with js.
Notation "'let*' x := m 'in' k" := (bind m (λ x, k))
  (at level 10, x name, m at level 100, k at level 200) : js_scope.
Notation "m ;; k" := (bind m (λ _, k))
  (at level 100, k at level 200, right associativity) : js_scope.
Local Open Scope js_scope.

Definition trace {A} (m : M A) : list event := m.1.
Definition result {A} (m : M A) : outcome A := m.2.

(** ** The script: [src/redis-brain.js] *)

Section Script.
Context {R : NodeRuntime}.

(** A variable is set when [process.env.NAME] is truthy: it has a value
    and the value is not the empty string. *)
Definition is_set (env : environment) (name : string) : bool :=
  truthy_str (env !! name).

(** The generic URL variables, in the order [getRedisEnv] tests them. *)
Definition generic_url_variables : list string :=
  ["REDISTOGO_URL"; "REDISCLOUD_URL"; "BOXEN_REDIS_URL"; "REDIS_URL"].

(** [getRedisEnv]: the name of the first variable that is truthy, or
    [undefined]. *)
Definition getRedisEnv (env : environment) : option string :=
  if truthy_str (env !! "REDISTOGO_URL") then Some "REDISTOGO_URL"
  else if truthy_str (env !! "REDISCLOUD_URL") then Some "REDISCLOUD_URL"
  else if truthy_str (env !! "BOXEN_REDIS_URL") then Some "BOXEN_REDIS_URL"
  else if truthy_str (env !! "REDIS_URL") then Some "REDIS_URL"
  else if truthy_str (env !! "CF_REDIS_SERVICE") then Some "CF_REDIS_INSTANCE_NAME"
  else None.

(** The [try]/[catch] of [buildCloudFoundryURL]: the parsed descriptor, or
    the raw value of the variable when [JSON.parse] throws (as it does on
    [undefined]). *)
Definition vcap_services (env : environment) : value :=
  match env !! "VCAP_SERVICES" with
  | Some text =>
      match JSON_parse text with
      | Some services => services
      | None => VStr text
      end
  | None => VUndefined
  end.

(** The [for-of] loop with its [break]: the first instance whose [name] is
    strictly equal to the wanted one; [hubotInstance] stays [undefined] when
    the loop ends without a match. *)
Fixpoint find_instance (instances : list value) (wanted : value) : outcome value :=
  match instances with
  | [] => Returned VUndefined
  | instance :: rest =>
      match get instance "name" with
      | Threw e => Threw e
      | Returned name =>
          if strict_equal name wanted then Returned instance
          else find_instance rest wanted
      end
  end.

Definition obind {A B} (o : outcome A) (k : A → outcome B) : outcome B :=
  match o with
  | Returned a => k a
  | Threw e => Threw e
  end.

Definition buildCloudFoundryURL (env : environment) : outcome string :=
  let services := vcap_services env in
  obind (get services (to_string (env_value env "CF_REDIS_SERVICE"))) (λ redisService,
  obind (iterate redisService) (λ instances,
  obind (find_instance instances (env_value env "CF_REDIS_INSTANCE_NAME")) (λ hubotInstance,
  obind (get hubotInstance "credentials") (λ redisCreds,
  obind (get redisCreds "hostname") (λ hostname_field,
  obind (if strict_equal hostname_field VUndefined
         then get redisCreds "host"
         else Returned hostname_field) (λ host,
  obind (get redisCreds "password") (λ password,
  obind (get redisCreds "port") (λ port_field,
  Returned ("redis://:" +:+ to_string password +:+
            "@" +:+ to_string host +:+
            ":" +:+ to_string port_field +:+
            "/" +:+ to_string (env_value env "CF_REDIS_INSTANCE_NAME")))))))))).

(** Lines 24-37: the URL the script connects to.  Every name that
    [getRedisEnv] returns is truthy, so [if (redisUrlEnv)] tests whether it
    returned one. *)
Definition resolve_url (env : environment) : M string :=
  match getRedisEnv env with
  | Some redisUrlEnv =>
      if String.eqb redisUrlEnv "CF_REDIS_INSTANCE_NAME" then
        call (LoggerInfo ("hubot-redis-brain: Discovered redis from " +:+ redisUrlEnv +:+
                          " environment variable. Pulling from VCAP")) ;;
        lift (buildCloudFoundryURL env)
      else
        call (LoggerInfo ("hubot-redis-brain: Discovered redis from " +:+ redisUrlEnv +:+
                          " environment variable")) ;;
        match env !! redisUrlEnv with
        | Some url => ret url
        | None => throw TypeError
        end
  | None =>
      call (LoggerInfo "hubot-redis-brain: Using default redis on localhost:6379") ;;
      ret "redis://localhost:6379"
  end.

(** What the handlers close over: the parsed URL and the prefix. *)
Record adapter := { info : UrlObject; prefix : string }.

(** [x || d] where [x] is a string, [null] or [undefined]. *)
Definition or_else (x : option string) (d : string) : string :=
  match x with
  | Some s => if truthy_str x then s else d
  | None => d
  end.

(** Lines 45-53, the prefix. *)
Definition prefix_of (info : UrlObject) : string :=
  if decide (hostname info = Some "") then
    or_else (if truthy_str (query info) then query info else None) "hubot"
  else
    or_else (if truthy_str (path info) then String_replace "/" "" <$> path info else None)
            "hubot".

(** Lines 45-53, the client. *)
Definition create_client (env : environment) (info : UrlObject) : event :=
  if decide (hostname info = Some "") then CreateClientSocket (pathname info)
  else if truthy_str (auth info) || truthy_str (env !! "REDIS_NO_CHECK")
       then CreateClient (port info) (hostname info) true
       else CreateClient (port info) (hostname info) false.

(** [info.auth.split(':')[1]]. *)
Definition auth_password (a : string) : option string :=
  String_split ":" a !! 1%nat.

Definition storage_key (a : adapter) : string := prefix a +:+ ":storage".

(** Lines 39-105, after the URL is resolved and parsed. *)
Definition connect (env : environment) (info : UrlObject) : M adapter :=
  (if truthy_str (env !! "REDIS_NO_CHECK")
   then call (LoggerInfo "Turning off redis ready checks") else ret tt) ;;
  call (create_client env info) ;;
  call (SetAutoSave false) ;;
  match auth info with
  | Some credentials =>
      if truthy_str (auth info) then call (ClientAuth (auth_password credentials))
      else ret tt
  | None => ret tt
  end ;;
  call (ClientOn "error") ;;
  call (ClientOn "connect") ;;
  call (BrainOn "save") ;;
  call (BrainOn "close") ;;
  ret {| info := info; prefix := prefix_of info |}.

(** [module.exports]: what runs when the host loads the script. *)
Definition module_exports (env : environment) : M adapter :=
  let* redisUrl := resolve_url env in
  connect env (Url_parse redisUrl).

(** [getData]: issue the [GET]; the reply comes to [getData_callback]. *)
Definition getData (a : adapter) : M unit :=
  call (ClientGet (storage_key a)).

(** The callback of [client.get], lines 58-72. *)
Definition getData_callback (a : adapter) (err : option error) (reply : option string)
  : M unit :=
  match err with
  | Some e => throw (Thrown e)
  | None =>
      match (if truthy_str reply then reply else None) with
      | Some text =>
          call (LoggerInfo ("hubot-redis-brain: Data for " +:+ prefix a +:+
                            " brain retrieved from Redis")) ;;
          match JSON_parse text with
          | Some data => call (MergeData data) ;; call (BrainEmit "connected")
          | None => throw SyntaxError
          end
      | None =>
          call (LoggerInfo ("hubot-redis-brain: Initializing new data for " +:+ prefix a +:+
                            " brain")) ;;
          call (MergeData (VObj [])) ;;
          call (BrainEmit "connected")
      end ;;
      call (SetAutoSave true)
  end.

(** The callback of [client.auth], lines 75-82. *)
Definition auth_callback (a : adapter) (err : option error) : M unit :=
  match err with
  | Some _ => call (LoggerError "hubot-redis-brain: Failed to authenticate to Redis")
  | None =>
      call (LoggerInfo "hubot-redis-brain: Successfully authenticated to Redis") ;;
      getData a
  end.

(** The client's ['error'] handler, lines 85-91. *)
Definition on_error (err : error) : M unit :=
  if RegExp_test "ECONNREFUSED" (message err) then ret tt
  else call (LoggerError (stack err)).

(** The client's ['connect'] handler, lines 93-96. *)
Definition on_connect (a : adapter) : M unit :=
  call (LoggerDebug "hubot-redis-brain: Successfully connected to Redis") ;;
  if negb (truthy_str (auth (info a))) then getData a else ret tt.

(** The brain's ['save'] handler, lines 98-103. *)
Definition on_save (a : adapter) (data : value) : M unit :=
  let data := if negb (truthy data) then VObj [] else data in
  call (ClientSet (storage_key a) (JSON_stringify data)).

(** The brain's ['close'] handler, line 105. *)
Definition on_close : M unit := call ClientQuit.

(** ** The event loop

    After [module.exports] returns, the script only runs when one of its
    callbacks is invoked.  An [input] is one such invocation. *)
Inductive input :=
| ClientConnect
| ClientError (err : error)
| AuthReply (err : option error)
| GetReply (err : option error) (reply : option string)
| BrainSave (data : value)
| AutoSave (data : value)
| BrainClose.

(** The host's side of auto-save, which is not part of the script: the
    brain keeps the flag [setAutoSave] was last called with, and its
    periodic save emits ['save'] only while the flag is on.  [BrainSave] is
    a ['save'] event emitted otherwise (the brain's [save] method, also
    called by its [close]); it does not look at the flag. *)
Definition auto_save_after (t : list event) (flag : bool) : bool :=
  fold_left (λ flag ev, match ev with SetAutoSave b => b | _ => flag end) t flag.

Definition react (a : adapter) (autoSave : bool) (i : input) : M unit :=
  match i with
  | ClientConnect => on_connect a
  | ClientError err => on_error err
  | AuthReply err => auth_callback a err
  | GetReply err reply => getData_callback a err reply
  | BrainSave data => on_save a data
  | AutoSave data => if autoSave then on_save a data else ret tt
  | BrainClose => on_close
  end.

(** The calls made while a sequence of inputs is handled.  An exception
    that leaves a callback is uncaught: with [halt] the process stops
    there, without it the host goes on with the next input. *)
Fixpoint run (halt : bool) (a : adapter) (autoSave : bool) (ins : list input)
  : list event :=
  match ins with
  | [] => []
  | i :: ins' =>
      let '(t, o) := react a autoSave i in
      match o with
      | Threw _ => if halt then t else t ++ run halt a (auto_save_after t autoSave) ins'
      | Returned _ => t ++ run halt a (auto_save_after t autoSave) ins'
      end
  end.

(** A whole session: the script is loaded, then the inputs arrive.  The
    brain's auto-save flag is on when the script is loaded. *)
Definition session (halt : bool) (env : environment) (ins : list input) : list event :=
  match module_exports env with
  | (t, Returned a) => t ++ run halt a (auto_save_after t true) ins
  | (t, Threw _) => t
  end.

(** Whether the ['connected'] signal occurs in a trace. *)
Definition is_connected (ev : event) : bool :=
  match ev with
  | BrainEmit name => String.eqb name "connected"
  | _ => false
  end.

(** No event that satisfies [bad] occurs before the first ['connected']
    signal. *)
Fixpoint none_before_connected (bad : event → bool) (t : list event) : bool :=
  match t with
  | [] => true
  | ev :: t' =>
      if bad ev then false
      else if is_connected ev then true
      else none_before_connected bad t'
  end.

(** Classes of events. *)
Definition is_write (ev : event) : bool :=
  match ev with ClientSet _ _ => true | _ => false end.

Definition is_enable (ev : event) : bool :=
  match ev with SetAutoSave true => true | _ => false end.

Definition is_set_auto_save (ev : event) : bool :=
  match ev with SetAutoSave _ => true | _ => false end.

Definition is_log (ev : event) : bool :=
  match ev with LoggerInfo _ | LoggerDebug _ | LoggerError _ => true | _ => false end.

Definition is_create (ev : event) : bool :=
  match ev with CreateClientSocket _ | CreateClient _ _ _ => true | _ => false end.

Definition is_auth (ev : event) : bool :=
  match ev with ClientAuth _ => true | _ => false end.

Definition is_get (ev : event) : bool :=
  match ev with ClientGet _ => true | _ => false end.

Definition is_explicit_save (i : input) : bool :=
  match i with
  | BrainSave _ => true
  | _ => false
  end.

End Script.

(** ** The Redis server

    The storage is a map from keys to strings; [SET] overwrites, [GET]
    reads, and commands are served in the order they were issued. *)
Abbreviation database := (gmap string string).

Definition redis_exec (db : database) (ev : event) : database :=
  match ev with
  | ClientSet key text => <[key := text]> db
  | _ => db
  end.

Definition redis_run (db : database) (t : list event) : database :=
  fold_left redis_exec t db.

(** The replies to the [GET]s of a trace. *)
Definition redis_replies (db : database) (t : list event) : list (option string) :=
  omap (λ ev, match ev with ClientGet key => Some (db !! key) | _ => None end) t.

(** A load that the database serves without a transport error: the [GET]
    that [getData] issues is answered from [db], and the reply is handed to
    the callback. *)
Definition load {R : NodeRuntime} (a : adapter) (db : database) : M unit :=
  let* _ := getData a in
  match redis_replies db (trace (getData a)) with
  | reply :: _ => getData_callback a None reply
  | [] => ret tt
  end.

(** ** A model of the runtime

    An instance of [NodeRuntime] to evaluate the script on concrete
    environments.  It follows Node's legacy [url.parse] and ECMAScript's
    [JSON] on the inputs described below; the general theorems do not
    depend on it. *)
Module Node.

Definition dquote : ascii := "034"%char.
Definition backslash : ascii := "092"%char.

(** The longest prefix of characters that satisfy [p], and what follows. *)
Fixpoint span (p : ascii → bool) (s : string) : string * string :=
  match s with
  | "" => ("", "")
  | String c s' =>
      if p c then let '(a, b) := span p s' in (String c a, b) else ("", s)
  end.

(** [s] cut at the last occurrence of [c]. *)
Fixpoint split_last (c : ascii) (s : string) : option (string * string) :=
  match s with
  | "" => None
  | String x s' =>
      match split_last c s' with
      | Some (a, b) => Some (String x a, b)
      | None => if Ascii.eqb x c then Some ("", s') else None
      end
  end.

Definition in_range (lo hi c : ascii) : bool :=
  (N_of_ascii lo <=? N_of_ascii c)%N && (N_of_ascii c <=? N_of_ascii hi)%N.

Definition is_digit (c : ascii) : bool := in_range "0" "9" c.

Definition is_scheme_char (c : ascii) : bool :=
  in_range "a" "z" c || in_range "A" "Z" c || is_digit c ||
  Ascii.eqb c "." || Ascii.eqb c "+" || Ascii.eqb c "-".

Definition ends_host (c : ascii) : bool :=
  Ascii.eqb c "/" || Ascii.eqb c "?" || Ascii.eqb c "#".

Definition lower (c : ascii) : ascii :=
  if in_range "A" "Z" c then ascii_of_N (N_of_ascii c + 32) else c.

Fixpoint toLowerCase (s : string) : string :=
  match s with
  | "" => ""
  | String c s' => String (lower c) (toLowerCase s')
  end.

Definition non_empty (s : string) : option string :=
  if String.eqb s "" then None else Some s.

(** [parseHost]: a trailing [:digits] is the port. *)
Definition parseHost (host : string) : string * option string :=
  match split_last ":" host with
  | Some (name, digits) =>
      if forallb is_digit (list_ascii_of_string digits)
      then (name, non_empty digits)
      else (host, None)
  | None => (host, None)
  end.

(** What is left after the host: the pathname, the query and the path. *)
Definition parse_rest (rest : string) : option string * option string * option string :=
  let '(before_hash, _) := span (λ c, negb (Ascii.eqb c "#")) rest in
  let '(pathname, search) := span (λ c, negb (Ascii.eqb c "?")) before_hash in
  (non_empty pathname,
   match search with String _ q => Some q | "" => None end,
   non_empty (pathname +:+ search)).

(** [url.parse(url)] for a URL whose scheme is not one Node treats
    specially (as [redis:] is not), written without white space,
    backslashes, percent-escapes or characters that [url.parse] would
    escape, and whose host name is made of ASCII letters, digits, dots and
    hyphens: the host section runs up to the first [/], [?] or [#]; in it
    the credentials end at the last [@] and the port is a trailing
    [:digits]; a URL with a scheme has a host name, possibly empty. *)
Definition url_parse (url : string) : UrlObject :=
  let '(scheme, after) := span is_scheme_char url in
  match scheme, after with
  | String _ _, String ":" rest =>
      let rest := if String.prefix "//" rest then drop_chars 2 rest else rest in
      let '(host_section, rest) := span (λ c, negb (ends_host c)) rest in
      let '(credentials, host) :=
        match split_last "@" host_section with
        | Some (a, h) => (Some a, h)
        | None => (None, host_section)
        end in
      let '(name, port) := parseHost host in
      let '(pathname, query, path) := parse_rest rest in
      {| auth := credentials; hostname := Some (toLowerCase name); port := port;
         pathname := pathname; query := query; path := path |}
  | _, _ =>
      let '(pathname, query, path) := parse_rest url in
      {| auth := None; hostname := None; port := None;
         pathname := pathname; query := query; path := path |}
  end.

(** *** [JSON.stringify] *)

Definition hex_digit (n : N) : ascii :=
  if (n <? 10)%N then ascii_of_N (48 + n) else ascii_of_N (87 + n).

(** [QuoteJSONString], one character. *)
Definition quote_char (c : ascii) : string :=
  if Ascii.eqb c dquote then String backslash (String dquote "")
  else if Ascii.eqb c backslash then String backslash (String backslash "")
  else if Ascii.eqb c "008" then String backslash "b"
  else if Ascii.eqb c "012" then String backslash "f"
  else if Ascii.eqb c "010" then String backslash "n"
  else if Ascii.eqb c "013" then String backslash "r"
  else if Ascii.eqb c "009" then String backslash "t"
  else if (N_of_ascii c <? 32)%N then
    String backslash
      (String "u" (String "0" (String "0"
         (String (hex_digit (N_of_ascii c / 16))
            (String (hex_digit (N_of_ascii c mod 16)) "")))))
  else String c "".

Fixpoint quote_body (s : string) : string :=
  match s with
  | "" => ""
  | String c s' => quote_char c +:+ quote_body s'
  end.

Definition quote (s : string) : string :=
  String dquote (quote_body s +:+ String dquote "").

(** The members of an object, given the text of a value: a property that
    holds [undefined] is left out. *)
Definition members_with (print : value → string)
  : list (string * value) → list string :=
  fix members fs :=
    match fs with
    | [] => []
    | (_, VUndefined) :: fs' => members fs'
    | (k, x) :: fs' => (quote k +:+ ":" +:+ print x) :: members fs'
    end.

(** [JSON.stringify(v)] without indentation.  An [undefined] element of an
    array is written [null]. *)
Fixpoint stringify (v : value) : string :=
  match v with
  | VUndefined | VNull => "null"
  | VBool true => "true"
  | VBool false => "false"
  | VNum n => Z_to_string n
  | VStr s => quote s
  | VArr xs => "[" +:+ join "," (map stringify xs) +:+ "]"
  | VObj fs => "{" +:+ join "," (members_with stringify fs) +:+ "}"
  end.

(** *** [JSON.parse] *)

Definition is_space (c : ascii) : bool :=
  Ascii.eqb c " " || Ascii.eqb c "009" || Ascii.eqb c "010" || Ascii.eqb c "013".

Fixpoint skip_space (s : string) : string :=
  match s with
  | String c s' => if is_space c then skip_space s' else s
  | "" => ""
  end.

Definition hex_value (c : ascii) : option N :=
  if is_digit c then Some (N_of_ascii c - 48)%N
  else if in_range "a" "f" c then Some (N_of_ascii c - 87)%N
  else if in_range "A" "F" c then Some (N_of_ascii c - 55)%N
  else None.

(** The four digits of a [\u] escape, for a character below 128. *)
Definition unicode_escape (h1 h2 h3 h4 : ascii) : option ascii :=
  a ← hex_value h1; b ← hex_value h2; c ← hex_value h3; d ← hex_value h4;
  let code := (((a * 16 + b) * 16 + c) * 16 + d)%N in
  if (code <? 128)%N then Some (ascii_of_N code) else None.

(** A string literal after its opening quote: its characters, and what
    follows the closing quote. *)
Fixpoint parse_string (s : string) : option (string * string) :=
  match s with
  | "" => None
  | String c r =>
      if Ascii.eqb c dquote then Some ("", r)
      else if Ascii.eqb c backslash then
        match r with
        | String e r' =>
            let continue (x : ascii) (tail : string) :=
              match parse_string tail with
              | Some (str, rest) => Some (String x str, rest)
              | None => None
              end in
            if Ascii.eqb e dquote then continue dquote r'
            else if Ascii.eqb e backslash then continue backslash r'
            else if Ascii.eqb e "/" then continue "/"%char r'
            else if Ascii.eqb e "b" then continue "008"%char r'
            else if Ascii.eqb e "f" then continue "012"%char r'
            else if Ascii.eqb e "n" then continue "010"%char r'
            else if Ascii.eqb e "r" then continue "013"%char r'
            else if Ascii.eqb e "t" then continue "009"%char r'
            else if Ascii.eqb e "u" then
              match r' with
              | String h1 (String h2 (String h3 (String h4 r''))) =>
                  match unicode_escape h1 h2 h3 h4 with
                  | Some x => continue x r''
                  | None => None
                  end
              | _ => None
              end
            else None
        | "" => None
        end
      else if (N_of_ascii c <? 32)%N then None
      else
        match parse_string r with
        | Some (str, rest) => Some (String c str, rest)
        | None => None
        end
  end.

Definition is_number_char (c : ascii) : bool := is_digit c || Ascii.eqb c "-".

(** An integer literal: [-]? digits, without leading zeros. *)
Definition parse_number (s : string) : option (value * string) :=
  let '(token, rest) := span is_number_char s in
  match NilZero.int_of_string token with
  | Some d =>
      let n := Z.of_int d in
      if String.eqb (Z_to_string n) token || String.eqb token "-0"
      then Some (VNum n, rest) else None
  | None => None
  end.

Definition literal (word : string) (v : value) (s : string) : option (value * string) :=
  if String.prefix word s then Some (v, drop_chars (String.length word) s) else None.

(** A repeated key keeps its first place and takes the last value. *)
Fixpoint set_property (fs : list (string * value)) (k : string) (x : value)
  : list (string * value) :=
  match fs with
  | [] => [(k, x)]
  | (k', x') :: fs' =>
      if String.eqb k' k then (k', x) :: fs' else (k', x') :: set_property fs' k x
  end.

Definition object_of (fs : list (string * value)) : value :=
  VObj (fold_left (λ acc kv, set_property acc kv.1 kv.2) fs []).

Fixpoint parse_value (fuel : nat) (s : string) : option (value * string) :=
  match fuel with
  | 0 => None
  | S fuel' =>
      match skip_space s with
      | "" => None
      | String c r =>
          if Ascii.eqb c "n" then literal "ull" VNull r
          else if Ascii.eqb c "t" then literal "rue" (VBool true) r
          else if Ascii.eqb c "f" then literal "alse" (VBool false) r
          else if Ascii.eqb c dquote then
            match parse_string r with
            | Some (str, rest) => Some (VStr str, rest)
            | None => None
            end
          else if Ascii.eqb c "[" then
            match skip_space r with
            | String "]" rest => Some (VArr [], rest)
            | _ =>
                match parse_elements fuel' r with
                | Some (xs, rest) => Some (VArr xs, rest)
                | None => None
                end
            end
          else if Ascii.eqb c "{" then
            match skip_space r with
            | String "}" rest => Some (VObj [], rest)
            | _ =>
                match parse_members fuel' r with
                | Some (fs, rest) => Some (object_of fs, rest)
                | None => None
                end
            end
          else parse_number (String c r)
      end
  end
with parse_elements (fuel : nat) (s : string) : option (list value * string) :=
  match fuel with
  | 0 => None
  | S fuel' =>
      match parse_value fuel' s with
      | Some (x, r) =>
          match skip_space r with
          | String "," r' =>
              match parse_elements fuel' r' with
              | Some (xs, rest) => Some (x :: xs, rest)
              | None => None
              end
          | String "]" rest => Some ([x], rest)
          | _ => None
          end
      | None => None
      end
  end
with parse_members (fuel : nat) (s : string)
  : option (list (string * value) * string) :=
  match fuel with
  | 0 => None
  | S fuel' =>
      match skip_space s with
      | String c r =>
          if Ascii.eqb c dquote then
            match parse_string r with
            | Some (k, r1) =>
                match skip_space r1 with
                | String ":" r2 =>
                    match parse_value fuel' r2 with
                    | Some (x, r3) =>
                        match skip_space r3 with
                        | String "," r4 =>
                            match parse_members fuel' r4 with
                            | Some (fs, rest) => Some ((k, x) :: fs, rest)
                            | None => None
                            end
                        | String "}" rest => Some ([(k, x)], rest)
                        | _ => None
                        end
                    | None => None
                    end
                | _ => None
                end
            | None => None
            end
          else None
      | "" => None
      end
  end.

(** [JSON.parse(text)] for texts whose numbers are integers and whose
    [\u] escapes are below 128; [None] is a [SyntaxError].  Every call of
    the parser consumes a character, so the length of the text is fuel
    enough. *)
Definition parse (text : string) : option value :=
  match parse_value (S (String.length text)) text with
  | Some (v, rest) => if String.eqb (skip_space rest) "" then Some v else None
  | None => None
  end.

(** The notions the round-trip proof of this model is stated with: what
    may follow a number, a value whose text parses back, and the text of a
    member. *)
Definition delimited (rest : string) : bool :=
  match rest with
  | "" => true
  | String c _ => negb (is_number_char c)
  end.

Definition parses_back (v : value) : Prop :=
  ∀ fuel rest,
    String.length (stringify v) ≤ fuel → delimited rest = true →
    parse_value fuel (stringify v +:+ rest) = Some (v, rest).

Definition member_text (kv : string * value) : string :=
  quote kv.1 +:+ ":" +:+ stringify kv.2.

Definition runtime : NodeRuntime := {|
  Url_parse := url_parse;
  JSON_parse := parse;
  JSON_stringify := stringify
|}.

End Node.

(** ** Observations on traces and inputs *)

(** How many events of a trace satisfy [p]. *)
Definition count (p : event → bool) (t : list event) : nat :=
  length (List.filter p t).

Definition is_quit (ev : event) : bool :=
  match ev with ClientQuit => true | _ => false end.

Definition is_merge (ev : event) : bool :=
  match ev with MergeData _ => true | _ => false end.

Definition is_register (ev : event) : bool :=
  match ev with ClientOn _ | BrainOn _ => true | _ => false end.

(** What the script does to set itself up: constructing the client,
    authenticating, registering its handlers. *)
Definition is_setup (ev : event) : bool :=
  is_create ev || is_auth ev || is_register ev.

(** The key of a [GET] or a [SET]. *)
Definition key_of (ev : event) : option string :=
  match ev with
  | ClientGet key | ClientSet key _ => Some key
  | _ => None
  end.

(** The inputs that make the script issue a load: a successful
    authentication, and a ['connect'] event when the URL has no
    credentials. *)
Definition issues_load (a : adapter) (i : input) : bool :=
  match i with
  | ClientConnect => negb (truthy_str (auth (info a)))
  | AuthReply None => true
  | _ => false
  end.

Definition is_close (i : input) : bool :=
  match i with BrainClose => true | _ => false end.

Definition is_save (i : input) : bool :=
  match i with BrainSave _ | AutoSave _ => true | _ => false end.

(** The inputs of a list that are ['save'] events emitted whatever the
    auto-save mode, with their payloads. *)
Definition saves (payloads : list value) : list input := map BrainSave payloads.

(** A reply to the [GET] that makes the load fail: an error of the
    command, or a non-empty text that [JSON.parse] rejects. *)
Definition failing_reply {R : NodeRuntime} (i : input) : Prop :=
  match i with
  | GetReply (Some _) _ => True
  | GetReply None reply => ∃ text, reply = Some text ∧ text ≠ "" ∧ JSON_parse text = None
  | _ => True
  end.

(** * Properties *)

(** ** Values and strings *)

(** Induction on values, with the hypotheses for the nested lists. *)
Lemma value_ind' (P : value → Prop) :
  P VUndefined → P VNull → (∀ b, P (VBool b)) → (∀ n, P (VNum n)) →
  (∀ s, P (VStr s)) →
  (∀ xs, Forall P xs → P (VArr xs)) →
  (∀ fs, Forall (λ kv, P kv.2) fs → P (VObj fs)) →
  ∀ v, P v.
Proof.
  intros Hu Hn Hb Hz Hs Ha Ho.
  fix IH 1. intros [| |b|n|s|xs|fs].
  - exact Hu.
  - exact Hn.
  - apply Hb.
  - apply Hz.
  - apply Hs.
  - apply Ha. induction xs as [|x xs IHxs]; constructor; [apply IH|exact IHxs].
  - apply Ho. induction fs as [|[k x] fs IHfs]; constructor; [apply IH|exact IHfs].
Qed.

Lemma append_cons c s t : String c s +:+ t = String c (s +:+ t).
Proof. reflexivity. Qed.

Lemma append_nil_l s : "" +:+ s = s.
Proof. reflexivity. Qed.

Lemma append_nil_r s : s +:+ "" = s.
Proof. induction s as [|c s IH]; [done|]. by rewrite append_cons, IH. Qed.

Lemma append_assoc s t u : (s +:+ t) +:+ u = s +:+ t +:+ u.
Proof. induction s as [|c s IH]; [done|]. by rewrite !append_cons, IH. Qed.

Lemma append_length s t : String.length (s +:+ t) = String.length s + String.length t.
Proof. induction s as [|c s IH]; [done|]. rewrite append_cons. simpl. by rewrite IH. Qed.

Lemma prefix_append pat s : String.prefix pat (pat +:+ s) = true.
Proof.
  induction pat as [|c pat IH]; [by destruct s|].
  rewrite append_cons. simpl. destruct (ascii_dec c c); [done|congruence].
Qed.

Lemma prefix_split pat s :
  String.prefix pat s = true → ∃ post, s = pat +:+ post.
Proof.
  revert s. induction pat as [|c pat IH]; intros s H.
  - by exists s.
  - destruct s as [|c' s]; [done|]. simpl in H.
    destruct (ascii_dec c c') as [->|]; [|done].
    destruct (IH _ H) as [post ->]. by exists post.
Qed.

Lemma drop_chars_append pat s : drop_chars (String.length pat) (pat +:+ s) = s.
Proof. induction pat as [|c pat IH]; [by destruct s|]. by rewrite append_cons. Qed.

Lemma forallb_weaken {A} (p q : A → bool) (l : list A) :
  (∀ x, p x = true → q x = true) → forallb p l = true → forallb q l = true.
Proof.
  intros Hpq. induction l as [|x l IH]; [done|]. simpl.
  intros [Hx Hl]%andb_true_iff. by rewrite (Hpq _ Hx), (IH Hl).
Qed.

Lemma RegExp_test_cons pat c s :
  RegExp_test pat (String c s) = String.prefix pat (String c s) || RegExp_test pat s.
Proof. reflexivity. Qed.

(** [RegExp_test pat s] holds exactly when [pat] occurs in [s]. *)
Lemma RegExp_test_spec pat s :
  RegExp_test pat s = true ↔ ∃ pre post, s = pre +:+ pat +:+ post.
Proof.
  split.
  - induction s as [|c s IH]; intros H.
    + destruct pat; [by exists "", ""|done].
    + rewrite RegExp_test_cons in H. apply orb_true_iff in H as [H|H].
      * apply prefix_split in H as [post ->]. by exists "", post.
      * destruct (IH H) as (pre & post & ->). by exists (String c pre), post.
  - intros (pre & post & ->). induction pre as [|c pre IH].
    + rewrite append_nil_l. destruct (pat +:+ post) as [|c s] eqn:E.
      * by destruct pat.
      * by rewrite RegExp_test_cons, <- E, prefix_append.
    + by rewrite append_cons, RegExp_test_cons, IH, orb_true_r.
Qed.

(** A string without the separator is one segment; otherwise the first
    segment ends at the first separator. *)
Lemma String_split_no_sep sep s :
  has_char sep s = false → String_split sep s = [s].
Proof.
  induction s as [|c s IH]; [done|]. unfold has_char. simpl.
  intros H. apply orb_false_iff in H as [Hc Hs].
  rewrite Ascii.eqb_sym, Hc. unfold has_char in IH. by rewrite (IH Hs).
Qed.

Lemma String_split_first sep s rest :
  has_char sep s = false →
  String_split sep (s +:+ String sep "" +:+ rest) = s :: String_split sep rest.
Proof.
  change (String sep "" +:+ rest) with (String sep rest).
  induction s as [|c s IH]; intros H.
  - rewrite append_nil_l. simpl. by rewrite Ascii.eqb_refl.
  - unfold has_char in *. simpl in H. apply orb_false_iff in H as [Hc Hs].
    rewrite append_cons. simpl. rewrite Ascii.eqb_sym, Hc. by rewrite (IH Hs).
Qed.

(** ** The model of [JSON] round-trips *)

Section NodeModel.
Import Node.

Lemma parse_string_quote_char (c : ascii) (r : string) :
  parse_string (quote_char c +:+ r) =
    match parse_string r with
    | Some (s, rest) => Some (String c s, rest)
    | None => None
    end.
Proof. destruct c as [[] [] [] [] [] [] [] []]; reflexivity. Qed.

Lemma parse_string_quote_body (s rest : string) :
  parse_string (quote_body s +:+ String dquote rest) = Some (s, rest).
Proof.
  induction s as [|c s IH]; [done|].
  simpl quote_body. by rewrite append_assoc, parse_string_quote_char, IH.
Qed.

Lemma quote_length (s : string) : 2 ≤ String.length (quote s).
Proof. unfold quote. simpl. rewrite append_length. simpl. lia. Qed.

Lemma span_append (p : ascii → bool) (s rest : string) :
  forallb p (list_ascii_of_string s) = true →
  match rest with "" => true | String c _ => negb (p c) end = true →
  span p (s +:+ rest) = (s, rest).
Proof.
  intros Hs Hrest. induction s as [|c s IH].
  - rewrite append_nil_l. destruct rest as [|c rest]; [done|]. simpl.
    by apply negb_true_iff in Hrest as ->.
  - simpl in Hs. apply andb_true_iff in Hs as [Hc Hs].
    rewrite append_cons. simpl. by rewrite Hc, (IH Hs).
Qed.

Lemma string_of_uint_digits (d : Decimal.uint) :
  forallb is_digit (list_ascii_of_string (NilEmpty.string_of_uint d)) = true.
Proof. induction d; simpl; auto. Qed.

Lemma Z_to_string_chars (n : Z) :
  forallb is_number_char (list_ascii_of_string (Z_to_string n)) = true.
Proof.
  assert (H : ∀ d, forallb is_number_char
                     (list_ascii_of_string (NilZero.string_of_uint d)) = true).
  { intros d. pose proof (string_of_uint_digits d) as Hd.
    assert (forallb is_number_char
              (list_ascii_of_string (NilEmpty.string_of_uint d)) = true) as Hn.
    { revert Hd. apply forallb_weaken. intros c Hc. unfold is_number_char. by rewrite Hc. }
    by destruct d. }
  unfold Z_to_string. destruct n as [|p|p]; simpl; [done|apply H|].
  apply H.
Qed.

Lemma Z_to_string_parse (n : Z) :
  NilZero.int_of_string (Z_to_string n) = Some (Z.to_int n).
Proof.
  unfold Z_to_string. apply NilZero.isi; destruct n as [|p|p]; simpl; try done;
    intros [= H]; by apply (Unsigned.to_uint_nonnil p).
Qed.

Lemma parse_number_Z_to_string (n : Z) (rest : string) :
  delimited rest = true →
  parse_number (Z_to_string n +:+ rest) = Some (VNum n, rest).
Proof.
  intros Hrest. unfold parse_number.
  rewrite (span_append _ _ _ (Z_to_string_chars n) Hrest).
  by rewrite Z_to_string_parse, DecimalZ.of_to, String.eqb_refl.
Qed.

Lemma Z_to_string_head (n : Z) :
  ∃ c s, Z_to_string n = String c s ∧ is_number_char c = true.
Proof.
  pose proof (Z_to_string_chars n) as Hchars.
  pose proof (Z_to_string_parse n) as Hparse.
  destruct (Z_to_string n) as [|c s]; [done|].
  simpl in Hchars. apply andb_true_iff in Hchars as [Hc _]. eauto.
Qed.

(** The first character of a number is neither white space nor the start
    of another kind of value, nor a closing bracket. *)
Lemma number_char_dispatch (c : ascii) (r : string) (fuel : nat) :
  is_number_char c = true →
  parse_value (S fuel) (String c r) = parse_number (String c r) ∧
  is_space c = false ∧ c ≠ "]"%char.
Proof. destruct c as [[] [] [] [] [] [] [] []]; intros H; try done. Qed.

Lemma literal_append (word : string) (v : value) (rest : string) :
  literal word v (word +:+ rest) = Some (v, rest).
Proof. unfold literal. by rewrite prefix_append, drop_chars_append. Qed.

Lemma parse_value_number (n : Z) (fuel : nat) (rest : string) :
  delimited rest = true →
  parse_value (S fuel) (Z_to_string n +:+ rest) = Some (VNum n, rest).
Proof.
  intros Hrest. destruct (Z_to_string_head n) as (c & s & Hn & Hc).
  rewrite Hn, append_cons.
  destruct (number_char_dispatch c (s +:+ rest) fuel Hc) as [-> _].
  rewrite <- append_cons, <- Hn. by apply parse_number_Z_to_string.
Qed.

Lemma parse_value_string (s : string) (fuel : nat) (rest : string) :
  parse_value (S fuel) (quote s +:+ rest) = Some (VStr s, rest).
Proof.
  unfold quote. rewrite append_cons, append_assoc, append_cons, append_nil_l.
  change (match parse_string (quote_body s +:+ String dquote rest) with
          | Some (str, rest') => Some (VStr str, rest')
          | None => None
          end = Some (VStr s, rest)).
  by rewrite parse_string_quote_body.
Qed.

(** The text of a value starts with a character that is not white space
    and not a closing bracket. *)
Lemma stringify_head (v : value) :
  ∃ c s, stringify v = String c s ∧ is_space c = false ∧ c ≠ "]"%char.
Proof.
  destruct v as [| |[]|n|s|xs|fs]; try by (eexists _, _).
  destruct (Z_to_string_head n) as (c & s & Hn & Hc).
  exists c, s. split; [done|]. by destruct (number_char_dispatch c "" 0 Hc) as (_ & ? & ?).
Qed.

Lemma stringify_length (v : value) : 1 ≤ String.length (stringify v).
Proof. destruct (stringify_head v) as (c & s & -> & _). simpl. lia. Qed.

(** On a serializable object every property is written. *)
Lemma members_with_json (fs : list (string * value)) :
  forallb (λ kv, is_json kv.2) fs = true →
  members_with stringify fs = map member_text fs.
Proof.
  induction fs as [|[k x] fs IH]; [done|]. simpl.
  intros [Hx Hfs]%andb_true_iff. rewrite <- (IH Hfs). by destruct x.
Qed.

(** Distinct keys are kept as they are. *)
Lemma set_property_fresh (acc : list (string * value)) (k : string) (x : value) :
  existsb (λ kv, String.eqb kv.1 k) acc = false →
  set_property acc k x = acc ++ [(k, x)].
Proof.
  induction acc as [|[k' x'] acc IH]; [done|]. simpl.
  intros [Hk Hacc]%orb_false_iff. by rewrite Hk, (IH Hacc).
Qed.

Lemma fold_set_property (fs acc : list (string * value)) :
  distinct_keys fs = true →
  (∀ kv, kv ∈ fs → existsb (λ kv', String.eqb kv'.1 kv.1) acc = false) →
  fold_left (λ acc kv, set_property acc kv.1 kv.2) fs acc = acc ++ fs.
Proof.
  revert acc. induction fs as [|[k x] fs IH]; intros acc Hd Hacc.
  - by rewrite app_nil_r.
  - simpl in Hd. apply andb_true_iff in Hd as [Hk Hd]. apply negb_true_iff in Hk.
    simpl. rewrite set_property_fresh by (apply (Hacc (k, x)); left).
    rewrite IH; [by rewrite <- app_assoc|done|].
    intros [k' x'] Hin. rewrite existsb_app, (Hacc (k', x')) by by right.
    simpl. rewrite orb_false_r.
    destruct (String.eqb_spec k k') as [->|]; [|done].
    assert (existsb (λ kv, String.eqb kv.1 k') fs = true); [|congruence].
    apply existsb_exists. exists (k', x'). split; [by apply list_elem_of_In|].
    apply String.eqb_refl.
Qed.

Lemma object_of_distinct (fs : list (string * value)) :
  distinct_keys fs = true → object_of fs = VObj fs.
Proof. intros Hd. unfold object_of. by rewrite fold_set_property. Qed.

Lemma join_cons_cons (sep s s' : string) (l : list string) :
  join sep (s :: s' :: l) = s +:+ sep +:+ join sep (s' :: l).
Proof. reflexivity. Qed.

Lemma parse_elements_S (fuel : nat) (s : string) :
  parse_elements (S fuel) s =
    match parse_value fuel s with
    | Some (x, r) =>
        match skip_space r with
        | String "," r' =>
            match parse_elements fuel r' with
            | Some (xs, rest) => Some (x :: xs, rest)
            | None => None
            end
        | String "]" rest => Some ([x], rest)
        | _ => None
        end
    | None => None
    end.
Proof. reflexivity. Qed.

Lemma parse_elements_join (xs : list value) (fuel : nat) (rest : string) :
  xs ≠ [] → Forall parses_back xs →
  String.length (join "," (map stringify xs)) < fuel →
  parse_elements fuel (join "," (map stringify xs) +:+ String "]" rest) = Some (xs, rest).
Proof.
  intros Hne Hxs. revert fuel.
  induction Hxs as [|x xs Hx Hxs IH]; [done|]. clear Hne. intros fuel Hfuel.
  destruct fuel as [|fuel]; [lia|].
  destruct xs as [|x' xs].
  - simpl map in *. simpl join in *.
    rewrite parse_elements_S, Hx; [done|lia|done].
  - simpl map in *. rewrite join_cons_cons in *.
    rewrite !append_length in Hfuel. change (String.length ",") with 1 in Hfuel.
    rewrite !append_assoc.
    change ("," +:+ ?s) with (String "," s).
    rewrite parse_elements_S, Hx; [|lia|done].
    change (skip_space (String "," ?s)) with (String "," s). cbv iota beta.
    rewrite IH; [done|done|lia].
Qed.

Lemma stringify_array (xs : list value) :
  stringify (VArr xs) = "[" +:+ join "," (map stringify xs) +:+ "]".
Proof. reflexivity. Qed.

Lemma stringify_object (fs : list (string * value)) :
  stringify (VObj fs) = "{" +:+ join "," (members_with stringify fs) +:+ "}".
Proof. reflexivity. Qed.

(** An opening bracket that is not followed by the closing one starts a
    list of elements, or of members. *)
Lemma parse_value_open_array (fuel : nat) (c : ascii) (s : string) :
  is_space c = false → c ≠ "]"%char →
  parse_value (S fuel) (String "[" (String c s)) =
    match parse_elements fuel (String c s) with
    | Some (xs, rest) => Some (VArr xs, rest)
    | None => None
    end.
Proof.
  intros Hspace Hc. simpl. rewrite Hspace.
  destruct c as [[] [] [] [] [] [] [] []]; done.
Qed.

Lemma parse_value_open_object (fuel : nat) (s : string) :
  parse_value (S fuel) (String "{" (String dquote s)) =
    match parse_members fuel (String dquote s) with
    | Some (fs, rest) => Some (object_of fs, rest)
    | None => None
    end.
Proof. reflexivity. Qed.

Lemma join_head (x : value) (xs : list value) (rest : string) :
  ∃ c s, join "," (map stringify (x :: xs)) +:+ rest = String c s ∧
         is_space c = false ∧ c ≠ "]"%char.
Proof.
  destruct (stringify_head x) as (c & s & Hx & Hc).
  destruct xs as [|x' xs]; simpl map.
  - simpl join. rewrite Hx, append_cons. eauto.
  - rewrite join_cons_cons, Hx, append_assoc, append_cons. eauto.
Qed.

Lemma parse_value_array (xs : list value) :
  Forall parses_back xs → parses_back (VArr xs).
Proof.
  intros Hxs fuel rest Hfuel Hrest.
  destruct fuel as [|fuel]; [simpl in Hfuel; lia|].
  destruct xs as [|x xs]; [done|].
  rewrite stringify_array in *. rewrite !append_length in Hfuel.
  change (String.length "[") with 1 in Hfuel. change (String.length "]") with 1 in Hfuel.
  rewrite !append_assoc.
  change ("[" +:+ ?s) with (String "[" s). change ("]" +:+ rest) with (String "]" rest).
  destruct (join_head x xs (String "]" rest)) as (c & s & Hhead & Hspace & Hc).
  rewrite Hhead, (parse_value_open_array _ _ _ Hspace Hc), <- Hhead.
  rewrite parse_elements_join; [done|done|done|lia].
Qed.

Lemma parse_members_S (fuel : nat) (k : string) (s : string) :
  parse_members (S fuel) (quote k +:+ String ":" s) =
    match parse_value fuel s with
    | Some (x, r3) =>
        match skip_space r3 with
        | String "," r4 =>
            match parse_members fuel r4 with
            | Some (fs, rest) => Some ((k, x) :: fs, rest)
            | None => None
            end
        | String "}" rest => Some ([(k, x)], rest)
        | _ => None
        end
    | None => None
    end.
Proof.
  unfold quote. rewrite append_cons, append_assoc, append_cons, append_nil_l.
  change (parse_members (S fuel) (String dquote ?r)) with
    (match parse_string r with
     | Some (k, r1) =>
         match skip_space r1 with
         | String ":" r2 =>
             match parse_value fuel r2 with
             | Some (x, r3) =>
                 match skip_space r3 with
                 | String "," r4 =>
                     match parse_members fuel r4 with
                     | Some (fs, rest) => Some ((k, x) :: fs, rest)
                     | None => None
                     end
                 | String "}" rest => Some ([(k, x)], rest)
                 | _ => None
                 end
             | None => None
             end
         | _ => None
         end
     | None => None
     end).
  by rewrite parse_string_quote_body.
Qed.

Lemma parse_members_join (fs : list (string * value)) (fuel : nat) (rest : string) :
  fs ≠ [] → Forall (λ kv, parses_back kv.2) fs →
  String.length (join "," (map member_text fs)) < fuel →
  parse_members fuel (join "," (map member_text fs) +:+ String "}" rest) = Some (fs, rest).
Proof.
  intros Hne Hfs. revert fuel.
  induction Hfs as [|[k x] fs Hx Hfs IH]; [done|]. clear Hne. intros fuel Hfuel.
  destruct fuel as [|fuel]; [lia|]. simpl in Hx.
  pose proof (quote_length k) as Hk.
  destruct fs as [|kv fs].
  - simpl map in *. simpl join in *. unfold member_text in *. simpl fst in *. simpl snd in *.
    rewrite !append_length in Hfuel. change (String.length ":") with 1 in Hfuel.
    rewrite !append_assoc. change (":" +:+ ?s) with (String ":" s).
    rewrite parse_members_S, Hx; [done|lia|done].
  - simpl map in *. rewrite join_cons_cons in *. unfold member_text at 1.
    unfold member_text at 1 in Hfuel. simpl fst in *. simpl snd in *.
    rewrite !append_length in Hfuel.
    change (String.length ":") with 1 in Hfuel. change (String.length ",") with 1 in Hfuel.
    rewrite !append_assoc.
    change (":" +:+ ?s) with (String ":" s). change ("," +:+ ?s) with (String "," s).
    rewrite parse_members_S, Hx; [|lia|done].
    change (skip_space (String "," ?s)) with (String "," s). cbv iota beta.
    rewrite IH; [done|done|lia].
Qed.

Lemma parse_value_object (fs : list (string * value)) :
  distinct_keys fs = true → forallb (λ kv, is_json kv.2) fs = true →
  Forall (λ kv, parses_back kv.2) fs → parses_back (VObj fs).
Proof.
  intros Hd Hjson Hfs fuel rest Hfuel Hrest.
  destruct fuel as [|fuel]; [simpl in Hfuel; lia|].
  destruct fs as [|[k x] fs]; [done|].
  rewrite stringify_object in *. rewrite (members_with_json _ Hjson) in *.
  rewrite !append_length in Hfuel.
  change (String.length "{") with 1 in Hfuel. change (String.length "}") with 1 in Hfuel.
  rewrite !append_assoc.
  change ("{" +:+ ?s) with (String "{" s). change ("}" +:+ rest) with (String "}" rest).
  assert (∃ s, join "," (map member_text ((k, x) :: fs)) +:+ String "}" rest
               = String dquote s) as [s Hhead].
  { destruct fs as [|kv fs]; simpl map.
    - simpl join. unfold member_text, quote. simpl fst. rewrite !append_cons. eauto.
    - rewrite join_cons_cons. unfold member_text at 1, quote. simpl fst.
      rewrite !append_cons. eauto. }
  rewrite Hhead, parse_value_open_object, <- Hhead.
  rewrite parse_members_join; [|done|done|lia].
  by rewrite object_of_distinct.
Qed.

(** The text of a serializable value parses back to the value. *)
Lemma parse_value_stringify (v : value) : is_json v = true → parses_back v.
Proof.
  induction v as [| |b|n|s|xs IH|fs IH] using value_ind'; intros Hjson; try done.
  - intros [|fuel] rest Hfuel _; [simpl in Hfuel; lia|].
    change (stringify VNull +:+ rest) with (String "n" ("ull" +:+ rest)).
    change (parse_value (S fuel) (String "n" ?r)) with (literal "ull" VNull r).
    apply literal_append.
  - intros [|fuel] rest Hfuel _; [destruct b; simpl in Hfuel; lia|]. destruct b.
    + change (stringify (VBool true) +:+ rest) with (String "t" ("rue" +:+ rest)).
      change (parse_value (S fuel) (String "t" ?r)) with (literal "rue" (VBool true) r).
      apply literal_append.
    + change (stringify (VBool false) +:+ rest) with (String "f" ("alse" +:+ rest)).
      change (parse_value (S fuel) (String "f" ?r)) with (literal "alse" (VBool false) r).
      apply literal_append.
  - intros [|fuel] rest Hfuel Hrest.
    + pose proof (stringify_length (VNum n)). lia.
    + by apply parse_value_number.
  - intros [|fuel] rest Hfuel Hrest.
    + pose proof (stringify_length (VStr s)). lia.
    + apply parse_value_string.
  - apply parse_value_array. simpl in Hjson.
    rewrite forallb_forall in Hjson. rewrite Forall_forall in IH |- *.
    intros x Hx. apply IH; [done|]. apply Hjson. by apply list_elem_of_In.
  - simpl in Hjson. apply andb_true_iff in Hjson as [Hd Hjson].
    apply parse_value_object; [done..|].
    rewrite forallb_forall in Hjson. rewrite Forall_forall in IH |- *.
    intros kv Hkv. apply IH; [done|]. apply Hjson. by apply list_elem_of_In.
Qed.

(** The model satisfies what the script needs of [JSON]. *)
Lemma node_round_trip : JSON_round_trip runtime.
Proof.
  intros d Hd. split.
  - cbn. unfold parse.
    rewrite <- (append_nil_r (stringify d)) at 2.
    rewrite (parse_value_stringify d Hd); [done| lia | done].
  - cbn. by destruct (stringify_head d) as (c & s & -> & _).
Qed.

End NodeModel.

(** ** The script *)

Section ScriptFacts.
Context {R : NodeRuntime}.

(** The calls of [connect], in order, and what it returns. *)
Lemma connect_trace (env : environment) (i : UrlObject) :
  trace (connect env i) =
    (if truthy_str (env !! "REDIS_NO_CHECK")
     then [LoggerInfo "Turning off redis ready checks"] else []) ++
    [create_client env i; SetAutoSave false] ++
    (if truthy_str (auth i)
     then [ClientAuth (auth_password (default "" (auth i)))] else []) ++
    [ClientOn "error"; ClientOn "connect"; BrainOn "save"; BrainOn "close"].
Proof.
  unfold connect.
  by destruct (truthy_str (env !! "REDIS_NO_CHECK")), (auth i) as [[|c s]|].
Qed.

Lemma connect_result (env : environment) (i : UrlObject) :
  result (connect env i) = Returned {| info := i; prefix := prefix_of i |}.
Proof.
  unfold connect.
  by destruct (truthy_str (env !! "REDIS_NO_CHECK")), (auth i) as [[|c s]|].
Qed.

Lemma create_client_cases (env : environment) (i : UrlObject) :
  create_client env i = CreateClientSocket (pathname i) ∨
  ∃ flag, create_client env i = CreateClient (port i) (hostname i) flag.
Proof.
  unfold create_client. destruct (decide _); [by left|right].
  destruct (_ || _); eauto.
Qed.

(** What the script does when it is loaded: one log line, then either
    [connect] or an exception out of the URL resolution. *)
Lemma module_exports_returned (env : environment) (t : list event) (a : adapter) :
  module_exports env = (t, Returned a) →
  ∃ msg url, t = LoggerInfo msg :: trace (connect env (Url_parse url)) ∧
             a = {| info := Url_parse url; prefix := prefix_of (Url_parse url) |}.
Proof.
  unfold module_exports. destruct (resolve_url env) as [t0 [url|e]] eqn:Hurl; [|done].
  assert (∃ msg, t0 = [LoggerInfo msg]) as [msg ->].
  { unfold resolve_url in Hurl. destruct (getRedisEnv env) as [name|].
    - destruct (String.eqb name "CF_REDIS_INSTANCE_NAME").
      + destruct (buildCloudFoundryURL env); simplify_eq/=; eauto.
      + destruct (env !! name); simplify_eq/=; eauto.
    - simplify_eq/=; eauto. }
  cbn. pose proof (connect_result env (Url_parse url)) as Hr.
  exists msg, url. destruct (connect env (Url_parse url)) as [t1 o].
  simpl in Hr. subst. by simplify_eq.
Qed.

Lemma module_exports_threw (env : environment) (t : list event) (e : exn) :
  module_exports env = (t, Threw e) → ∃ msg, t = [LoggerInfo msg].
Proof.
  unfold module_exports. destruct (resolve_url env) as [t0 [url|e']] eqn:Hurl.
  - cbn. pose proof (connect_result env (Url_parse url)) as Hr.
    destruct (connect env (Url_parse url)) as [t1 o]. simpl in Hr. by subst.
  - intros [= <- <-]. unfold resolve_url in Hurl. destruct (getRedisEnv env) as [name|].
    + destruct (String.eqb name "CF_REDIS_INSTANCE_NAME").
      * destruct (buildCloudFoundryURL env); simplify_eq/=; eauto.
      * destruct (env !! name); simplify_eq/=; eauto.
    + simplify_eq/=.
Qed.

(** A reply that is not JSON: the [SyntaxError] of [JSON.parse] leaves the
    callback after the log line; nothing is merged or signalled. *)
Lemma load_of_malformed_record (a : adapter) (text : string) :
  text ≠ "" → JSON_parse text = None →
  getData_callback a None (Some text) =
    ([LoggerInfo ("hubot-redis-brain: Data for " +:+ prefix a +:+
                  " brain retrieved from Redis")], Threw SyntaxError).
Proof.
  intros Hne Hparse. unfold getData_callback.
  destruct text as [|c s]; [done|]. cbn [truthy_str String.eqb negb].
  by rewrite Hparse.
Qed.

(** A ['save'] event without a snapshot writes the empty object. *)
Lemma save_of_absent_snapshot (a : adapter) (data : value) :
  truthy data = false →
  on_save a data = ([ClientSet (prefix a +:+ ":storage") (JSON_stringify (VObj []))],
                    Returned tt).
Proof. intros H. unfold on_save. by rewrite H. Qed.

(** *** Resolution of the connection target *)

(** C5. The URL is found by a fixed priority: the first of REDISTOGO_URL,
    REDISCLOUD_URL, BOXEN_REDIS_URL and REDIS_URL that is set gives the
    URL, whether or not CF_REDIS_SERVICE is set; if none of them is set and
    CF_REDIS_SERVICE is, the URL is the one built from the Cloud Foundry
    service binding; if nothing is set, it is redis://localhost:6379.  The
    URL found is the one the script parses and connects to.  A variable is
    set when its value is truthy, that is, not the empty string. *)
Theorem url_resolution_priority (env : environment) :
  (∀ name url,
      find (is_set env) generic_url_variables = Some name →
      env !! name = Some url →
      result (resolve_url env) = Returned url) ∧
  (find (is_set env) generic_url_variables = None →
   is_set env "CF_REDIS_SERVICE" = true →
   result (resolve_url env) = buildCloudFoundryURL env) ∧
  (find (is_set env) generic_url_variables = None →
   is_set env "CF_REDIS_SERVICE" = false →
   result (resolve_url env) = Returned "redis://localhost:6379") ∧
  (∀ url, result (resolve_url env) = Returned url →
     result (module_exports env) =
       Returned {| info := Url_parse url; prefix := prefix_of (Url_parse url) |}).
Proof.
  split; [|split; [|split]].
  4:{ intros url Hurl. unfold module_exports.
      destruct (resolve_url env) as [t o]. simpl in Hurl. subst o. cbn.
      pose proof (connect_result env (Url_parse url)) as Hr.
      destruct (connect env (Url_parse url)) as [t1 o1]. by simpl in Hr. }
  all: unfold resolve_url, getRedisEnv, generic_url_variables, is_set; simpl find;
    destruct (truthy_str (env !! "REDISTOGO_URL"));
      [|destruct (truthy_str (env !! "REDISCLOUD_URL"));
        [|destruct (truthy_str (env !! "BOXEN_REDIS_URL"));
          [|destruct (truthy_str (env !! "REDIS_URL"))]]]; try done.
  1-4: intros name url [= <-] Hurl; cbn; by rewrite Hurl.
  - intros _ ->. cbn. by destruct (buildCloudFoundryURL env).
  - by intros _ ->.
Qed.

(** C6. When the parsed host name is empty the URL is of the UNIX-socket
    form: the client is built on the pathname and the prefix is the query
    string.  Otherwise it is of the host/port form: the client is built on
    port and host name, and the prefix is the path without its leading
    slash (in general, without its first slash).  In both forms an empty
    or missing prefix is replaced by hubot.  The three URLs of the
    specification give the expected prefixes, socket path and absence of
    credentials. *)
Theorem prefix_and_form (env : environment) (i : UrlObject) :
  (hostname i = Some "" →
     create_client env i = CreateClientSocket (pathname i) ∧
     prefix_of i = match query i with
                   | Some q => if String.eqb q "" then "hubot" else q
                   | None => "hubot"
                   end) ∧
  (hostname i ≠ Some "" →
     (∃ flag, create_client env i = CreateClient (port i) (hostname i) flag) ∧
     (∀ segment, path i = Some (String "/" segment) →
        prefix_of i = if String.eqb segment "" then "hubot" else segment) ∧
     (∀ p, path i = Some p →
        prefix_of i = if String.eqb (String_replace "/" "" p) "" then "hubot"
                      else String_replace "/" "" p) ∧
     (path i = None → prefix_of i = "hubot")) ∧
  (let u := Node.url_parse "redis://localhost:6379" in
   prefix_of u = "hubot" ∧ auth u = None ∧
   create_client ∅ u = CreateClient (Some "6379") (Some "localhost") false) ∧
  prefix_of (Node.url_parse "redis://h:6379/myprefix") = "myprefix" ∧
  (let u := Node.url_parse "redis:///tmp/redis.sock?myprefix" in
   prefix_of u = "myprefix" ∧
   create_client ∅ u = CreateClientSocket (Some "/tmp/redis.sock")).
Proof.
  assert (Hpath : ∀ p, hostname i ≠ Some "" → path i = Some p →
            prefix_of i = if String.eqb (String_replace "/" "" p) "" then "hubot"
                          else String_replace "/" "" p).
  { intros p Hh Hp. unfold prefix_of. rewrite decide_False by done. rewrite Hp.
    destruct p as [|c p]; [done|].
    cbn [truthy_str String.eqb negb fmap option_fmap option_map].
    unfold or_else. cbn [truthy_str]. by destruct (String.eqb _ ""). }
  split; [|split; [|split; [|split]]].
  - intros Hh. unfold create_client, prefix_of. rewrite !decide_True by done.
    split; [done|]. destruct (query i) as [q|]; [|done].
    unfold or_else. cbn. destruct (String.eqb q "") eqn:E; cbn; by rewrite ?E.
  - intros Hh. split; [|split; [|split]].
    + unfold create_client. rewrite decide_False by done.
      destruct (_ || _); eauto.
    + intros segment Hp. rewrite (Hpath _ Hh Hp). by destruct segment.
    + intros p. by apply Hpath.
    + intros Hp. unfold prefix_of. rewrite decide_False by done. by rewrite Hp.
  - by vm_compute.
  - by vm_compute.
  - by vm_compute.
Qed.

(** C9. The script constructs the client once.  When the host name is
    empty it is constructed on the socket path; otherwise on port and host
    name, and the option no_ready_check is passed exactly when the URL
    carries credentials or REDIS_NO_CHECK is set. *)
Theorem client_construction (env : environment) (i : UrlObject) :
  filter (λ ev, is_create ev = true) (trace (connect env i)) = [create_client env i] ∧
  (hostname i = Some "" → create_client env i = CreateClientSocket (pathname i)) ∧
  (hostname i ≠ Some "" →
     ∃ no_ready_check,
       create_client env i = CreateClient (port i) (hostname i) no_ready_check ∧
       (no_ready_check = true ↔
          truthy_str (auth i) = true ∨ is_set env "REDIS_NO_CHECK" = true)).
Proof.
  split; [|split].
  - rewrite connect_trace.
    destruct (create_client_cases env i) as [-> | [flag ->]];
      by destruct (truthy_str (env !! "REDIS_NO_CHECK")), (truthy_str (auth i)).
  - intros Hh. unfold create_client. by rewrite decide_True.
  - intros Hh. unfold create_client, is_set. rewrite decide_False by done.
    destruct (truthy_str (auth i)), (truthy_str (env !! "REDIS_NO_CHECK"));
      eexists; (split; [done|]); intuition discriminate.
Qed.

(** *** Authentication and load *)

(** C10. With credentials in the URL the script authenticates once, and
    the password it sends is the second segment of the credentials split
    at colons: for user:password it is the password; when the password
    itself holds a colon, only its part before that colon; when the
    credentials hold no colon, nothing ([undefined]). *)
Theorem auth_sends_second_segment (env : environment) (i : UrlObject) (credentials : string) :
  auth i = Some credentials → credentials ≠ "" →
  filter (λ ev, is_auth ev = true) (trace (connect env i))
    = [ClientAuth (String_split ":" credentials !! 1%nat)] ∧
  (∀ user password more,
      has_char ":" user = false → has_char ":" password = false →
      credentials = user +:+ ":" +:+ password +:+ ":" +:+ more →
      String_split ":" credentials !! 1%nat = Some password) ∧
  (∀ user password,
      has_char ":" user = false → has_char ":" password = false →
      credentials = user +:+ ":" +:+ password →
      String_split ":" credentials !! 1%nat = Some password) ∧
  (has_char ":" credentials = false → String_split ":" credentials !! 1%nat = None).
Proof.
  intros Hauth Hne. split; [|split; [|split]].
  - rewrite connect_trace, Hauth. unfold auth_password.
    assert (truthy_str (Some credentials) = true) as -> by by destruct credentials.
    destruct (create_client_cases env i) as [-> | [flag ->]];
      by destruct (truthy_str (env !! "REDIS_NO_CHECK")).
  - intros user password more Hu Hp ->.
    by rewrite (String_split_first _ _ _ Hu), (String_split_first _ _ _ Hp).
  - intros user password Hu Hp ->.
    by rewrite (String_split_first _ _ _ Hu), (String_split_no_sep _ _ Hp).
  - intros H. by rewrite (String_split_no_sep _ _ H).
Qed.


(** C2. A load asks for the key prefix:storage.  When the reply is a
    non-empty text, it is parsed as JSON, the result is merged into the
    brain and connected is signalled; when there is no stored value (or an
    empty one), the empty object is merged and connected is signalled; in
    both cases auto-save is enabled afterwards.  When the command returns
    an error, the error is thrown again and nothing is merged, signalled
    or enabled. *)
Theorem load_outcomes (a : adapter) :
  getData a = ([ClientGet (prefix a +:+ ":storage")], Returned tt) ∧
  (∀ text data,
      text ≠ "" → JSON_parse text = Some data →
      getData_callback a None (Some text) =
        ([LoggerInfo ("hubot-redis-brain: Data for " +:+ prefix a +:+
                      " brain retrieved from Redis");
          MergeData data; BrainEmit "connected"; SetAutoSave true], Returned tt)) ∧
  (∀ reply,
      reply = None ∨ reply = Some "" →
      getData_callback a None reply =
        ([LoggerInfo ("hubot-redis-brain: Initializing new data for " +:+ prefix a +:+
                      " brain");
          MergeData (VObj []); BrainEmit "connected"; SetAutoSave true], Returned tt)) ∧
  (∀ err reply, getData_callback a (Some err) reply = ([], Threw (Thrown err))).
Proof.
  split; [done|]. split; [|split]; [| |done].
  - intros text data Hne Hparse. unfold getData_callback.
    destruct text as [|c s]; [done|]. cbn [truthy_str String.eqb negb].
    by rewrite Hparse.
  - by intros reply [-> | ->].
Qed.

(** C8. A connection error whose message contains ECONNREFUSED produces no
    call at all; any other connection error is logged at error level with
    its stack.  In both cases the handler returns: it throws nothing and
    issues no command. *)
Theorem connection_error_reporting (err : error) :
  ((∃ pre post, message err = pre +:+ "ECONNREFUSED" +:+ post) →
     on_error err = ([], Returned tt)) ∧
  (¬ (∃ pre post, message err = pre +:+ "ECONNREFUSED" +:+ post) →
     on_error err = ([LoggerError (stack err)], Returned tt)).
Proof.
  unfold on_error. split; intros H.
  - apply RegExp_test_spec in H. by rewrite H.
  - destruct (RegExp_test "ECONNREFUSED" (message err)) eqn:E; [|done].
    by apply RegExp_test_spec in E.
Qed.

(** *** The Cloud Foundry service binding *)

(** The loop passes over instances whose name differs and stops at the
    first whose name is the wanted one. *)
Lemma find_instance_first (before after : list value) (instance wanted : value) :
  Forall (λ x, ∃ name, get x "name" = Returned name ∧ strict_equal name wanted = false)
         before →
  (∃ name, get instance "name" = Returned name ∧ strict_equal name wanted = true) →
  find_instance (before ++ instance :: after) wanted = Returned instance.
Proof.
  intros Hbefore (name & Hname & Heq).
  induction Hbefore as [|x before (n & Hn & Hne) _ IH]; simpl.
  - by rewrite Hname, Heq.
  - by rewrite Hn, Hne.
Qed.

(** When no instance has the wanted name the loop ends without a match, or
    throws on an element that has no properties. *)
Lemma find_instance_absent (instances : list value) (wanted : value) :
  (∀ x name, x ∈ instances → get x "name" = Returned name →
             strict_equal name wanted = false) →
  find_instance instances wanted = Returned VUndefined ∨
  find_instance instances wanted = Threw TypeError.
Proof.
  induction instances as [|x xs IH]; intros Hall; [by left|]. simpl.
  destruct (get x "name") as [name|e] eqn:Hname.
  - rewrite (Hall x name) by (done || by left).
    apply IH. intros y n Hy. apply Hall. by right.
  - right. by destruct x; simplify_eq/=; repeat case_match; simplify_eq.
Qed.


(** *** Auto-save and the event loop *)

Lemma none_before_connected_app (bad : event → bool) (t1 t2 : list event) :
  none_before_connected bad (t1 ++ t2) =
    none_before_connected bad t1 &&
    (existsb is_connected t1 || none_before_connected bad t2).
Proof.
  induction t1 as [|ev t1 IH]; simpl; [done|].
  destruct (bad ev); [done|]. by destruct (is_connected ev).
Qed.

Lemma auto_save_after_app (t1 t2 : list event) (flag : bool) :
  auto_save_after (t1 ++ t2) flag = auto_save_after t2 (auto_save_after t1 flag).
Proof. apply fold_left_app. Qed.

(** One callback: auto-save is not enabled before connected is signalled
    in it. *)
Lemma react_enable (a : adapter) (flag : bool) (i : input) :
  none_before_connected is_enable (trace (react a flag i)) = true.
Proof.
  destruct i as [|err|[err|]|[err|] [[|c text]|]|data|data|]; cbn [react]; try done.
  - unfold on_connect. by destruct (truthy_str _).
  - unfold on_error. by destruct (RegExp_test _ _).
  - unfold getData_callback. cbn [truthy_str String.eqb negb].
    by destruct (JSON_parse _).
  - by destruct flag.
Qed.

(** One callback that is not an explicit save, while auto-save is off:
    nothing is written, and auto-save stays off unless connected is
    signalled. *)
Lemma react_gated (a : adapter) (i : input) :
  is_explicit_save i = false →
  none_before_connected is_write (trace (react a false i)) = true ∧
  (existsb is_connected (trace (react a false i)) = true ∨
   auto_save_after (trace (react a false i)) false = false).
Proof.
  intros Hi.
  destruct i as [|err|[err|]|[err|] [[|c text]|]|data|data|]; cbn [react];
    try done; try (cbn; by auto).
  - unfold on_connect. destruct (truthy_str _); cbn; auto.
  - unfold on_error. destruct (RegExp_test _ _); cbn; auto.
  - unfold getData_callback. cbn [truthy_str String.eqb negb].
    destruct (JSON_parse _); cbn; auto.
Qed.

Lemma run_enable (halt : bool) (a : adapter) (ins : list input) (flag : bool) :
  none_before_connected is_enable (run halt a flag ins) = true.
Proof.
  revert flag. induction ins as [|i ins IH]; intros flag; [done|]. simpl.
  pose proof (react_enable a flag i) as Hi.
  destruct (react a flag i) as [t [[]|e]]; simpl in Hi.
  - by rewrite none_before_connected_app, Hi, IH, orb_true_r.
  - destruct halt; [done|]. by rewrite none_before_connected_app, Hi, IH, orb_true_r.
Qed.

Lemma run_gated (halt : bool) (a : adapter) (ins : list input) :
  forallb (λ i, negb (is_explicit_save i)) ins = true →
  none_before_connected is_write (run halt a false ins) = true.
Proof.
  induction ins as [|i ins IH]; [done|]. simpl.
  intros [Hi Hins]%andb_true_iff. apply negb_true_iff in Hi.
  destruct (react_gated a i Hi) as [Hw Hc].
  destruct (react a false i) as [t o]; simpl in Hw, Hc.
  assert (none_before_connected is_write
            (t ++ run halt a (auto_save_after t false) ins) = true) as Happ.
  { rewrite none_before_connected_app, Hw. destruct Hc as [-> | ->]; [done|].
    by rewrite IH, orb_true_r. }
  destruct o as [[]|e]; [done|]. by destruct halt.
Qed.

(** C3, amended.  When the script is loaded it disables auto-save right
    after it has constructed the client: only log lines and the
    construction come before, and no other change of the mode follows in
    the start-up.  In a whole session auto-save is never enabled before
    connected has been signalled.  Consequently, as long as the only
    ['save'] events are those of the host's automatic save, nothing is
    written to the storage record before the first connected signal.  This
    holds whether or not the process stops at an uncaught exception. *)
Theorem auto_save_gating (halt : bool) (env : environment) (ins : list input) :
  (∀ t a, module_exports env = (t, Returned a) →
     ∃ before after,
       t = before ++ SetAutoSave false :: after ∧
       Forall (λ ev, is_log ev = true ∨ is_create ev = true) before ∧
       Forall (λ ev, is_set_auto_save ev = false) after) ∧
  none_before_connected is_enable (session halt env ins) = true ∧
  (forallb (λ i, negb (is_explicit_save i)) ins = true →
   none_before_connected is_write (session halt env ins) = true).
Proof.
  split; [|split].
  - intros t a (msg & url & -> & _)%module_exports_returned.
    rewrite connect_trace.
    exists (LoggerInfo msg ::
            (if truthy_str (env !! "REDIS_NO_CHECK")
             then [LoggerInfo "Turning off redis ready checks"] else []) ++
            [create_client env (Url_parse url)]).
    exists ((if truthy_str (auth (Url_parse url))
             then [ClientAuth (auth_password (default "" (auth (Url_parse url))))]
             else []) ++
            [ClientOn "error"; ClientOn "connect"; BrainOn "save"; BrainOn "close"]).
    split; [by destruct (truthy_str (env !! "REDIS_NO_CHECK"))|]. split.
    + constructor; [by left|]. apply Forall_app. split.
      * destruct (truthy_str _); repeat constructor.
      * constructor; [right|done].
        by destruct (create_client_cases env (Url_parse url)) as [-> | [flag ->]].
    + apply Forall_app. split; [destruct (truthy_str _)|]; by repeat constructor.
  - unfold session. destruct (module_exports env) as [t [a|e]] eqn:Hm.
    + apply module_exports_returned in Hm as (msg & url & -> & _).
      rewrite none_before_connected_app, run_enable, orb_true_r, andb_true_r.
      rewrite connect_trace.
      destruct (create_client_cases env (Url_parse url)) as [-> | [flag ->]];
        by destruct (truthy_str (env !! _)), (truthy_str (auth _)).
    + by apply module_exports_threw in Hm as [msg ->].
  - intros Hins. unfold session. destruct (module_exports env) as [t [a|e]] eqn:Hm.
    + apply module_exports_returned in Hm as (msg & url & -> & _).
      rewrite connect_trace, none_before_connected_app.
      destruct (create_client_cases env (Url_parse url)) as [-> | [flag ->]];
        destruct (truthy_str (env !! _)), (truthy_str (auth _)); cbn;
        by apply run_gated.
    + by apply module_exports_threw in Hm as [msg ->].
Qed.

(** *** Saving and loading *)

(** With a runtime whose JSON parses the text of every serializable value
    back to that value: what is saved is what the next load merges. *)
Lemma save_then_load_with (a : adapter) (db : database) (d : value) :
  JSON_round_trip R → is_json d = true → truthy d = true →
  on_save a d = ([ClientSet (prefix a +:+ ":storage") (JSON_stringify d)], Returned tt) ∧
  load a (redis_run db (trace (on_save a d))) =
    ([ClientGet (prefix a +:+ ":storage");
      LoggerInfo ("hubot-redis-brain: Data for " +:+ prefix a +:+
                  " brain retrieved from Redis");
      MergeData d; BrainEmit "connected"; SetAutoSave true], Returned tt).
Proof.
  intros HR Hjson Htruthy. destruct (HR d Hjson) as [Hparse Hne].
  assert (on_save a d = ([ClientSet (storage_key a) (JSON_stringify d)], Returned tt))
    as Hsave by (unfold on_save; by rewrite Htruthy).
  split; [done|]. rewrite Hsave. unfold load, getData. cbn.
  rewrite lookup_insert_eq. unfold getData_callback.
  destruct (JSON_stringify d) as [|c s] eqn:Htext; [done|].
  cbn [truthy_str String.eqb negb]. by rewrite Hparse.
Qed.

End ScriptFacts.


(** ** The properties on concrete inputs

    Each statement below is an instance of the theorem it is named after,
    evaluated with the model of the runtime. *)

Lemma url_resolution_priority_witness :
  result (resolve_url (R := Node.runtime)
            {["REDIS_URL" := "redis://h:6379/x"; "CF_REDIS_SERVICE" := "p-redis"]})
    = Returned "redis://h:6379/x" ∧
  result (resolve_url (R := Node.runtime) {["CF_REDIS_SERVICE" := "p-redis"]})
    = buildCloudFoundryURL (R := Node.runtime) {["CF_REDIS_SERVICE" := "p-redis"]} ∧
  result (resolve_url (R := Node.runtime) ∅) = Returned "redis://localhost:6379".
Proof.
  split; [|split].
  - apply (proj1 (url_resolution_priority (R := Node.runtime) _) "REDIS_URL");
      vm_compute; reflexivity.
  - apply (proj1 (proj2 (url_resolution_priority (R := Node.runtime) _)));
      vm_compute; reflexivity.
  - apply (proj1 (proj2 (proj2 (url_resolution_priority (R := Node.runtime) _))));
      vm_compute; reflexivity.
Defined.

Lemma prefix_and_form_witness :
  prefix_of (Node.url_parse "redis:///var/run/redis.sock") = "hubot" ∧
  prefix_of (Node.url_parse "redis://cache:6379/bot/staging") = "bot/staging" ∧
  prefix_of (Node.url_parse "redis://cache:6379/") = "hubot".
Proof.
  split; [|split].
  - apply (proj1 (prefix_and_form ∅ (Node.url_parse "redis:///var/run/redis.sock"))).
    vm_compute; reflexivity.
  - refine (proj1 (proj2 (proj1 (proj2
             (prefix_and_form ∅ (Node.url_parse "redis://cache:6379/bot/staging"))) _))
             "bot/staging" _); [vm_compute; discriminate | vm_compute; reflexivity].
  - refine (proj1 (proj2 (proj1 (proj2
             (prefix_and_form ∅ (Node.url_parse "redis://cache:6379/"))) _))
             "" _); [vm_compute; discriminate | vm_compute; reflexivity].
Defined.

Lemma client_construction_witness :
  ∃ no_ready_check,
    create_client {["REDIS_NO_CHECK" := "1"]} (Node.url_parse "redis://cache:6379")
      = CreateClient (Some "6379") (Some "cache") no_ready_check ∧
    (no_ready_check = true ↔
       truthy_str (auth (Node.url_parse "redis://cache:6379")) = true ∨
       is_set {["REDIS_NO_CHECK" := "1"]} "REDIS_NO_CHECK" = true).
Proof.
  refine (proj2 (proj2 (client_construction {["REDIS_NO_CHECK" := "1"]}
                          (Node.url_parse "redis://cache:6379"))) _).
  vm_compute; discriminate.
Defined.

Lemma auth_sends_second_segment_witness :
  String_split ":" "user:pa:ss" !! 1%nat = Some "pa" ∧
  String_split ":" "user" !! 1%nat = None.
Proof.
  split.
  - refine (proj1 (proj2 (auth_sends_second_segment ∅
              (Node.url_parse "redis://user:pa:ss@cache:6379") "user:pa:ss" _ _))
              "user" "pa" "ss" _ _ _); (vm_compute; reflexivity) || discriminate.
  - refine (proj2 (proj2 (proj2 (auth_sends_second_segment ∅
              (Node.url_parse "redis://user@cache:6379") "user" _ _))) _);
      (vm_compute; reflexivity) || discriminate.
Defined.


Lemma load_outcomes_witness :
  let a := {| info := Node.url_parse "redis://localhost:6379"; prefix := "hubot" |} in
  getData_callback (R := Node.runtime) a None
      (Some (Node.stringify (VObj [("a", VNum 1)]))) =
    ([LoggerInfo "hubot-redis-brain: Data for hubot brain retrieved from Redis";
      MergeData (VObj [("a", VNum 1)]); BrainEmit "connected"; SetAutoSave true],
     Returned tt) ∧
  getData_callback (R := Node.runtime) a None None =
    ([LoggerInfo "hubot-redis-brain: Initializing new data for hubot brain";
      MergeData (VObj []); BrainEmit "connected"; SetAutoSave true], Returned tt).
Proof.
  intros a. split.
  - refine (proj1 (proj2 (load_outcomes (R := Node.runtime) a)) _ _ _ _);
      (vm_compute; reflexivity) || discriminate.
  - refine (proj1 (proj2 (proj2 (load_outcomes (R := Node.runtime) a))) None _).
    left; reflexivity.
Defined.

Lemma connection_error_reporting_witness :
  on_error {| message := "connect ECONNREFUSED 127.0.0.1:6379"; stack := "Error: ..." |}
    = ([], Returned tt) ∧
  on_error {| message := "Redis connection lost"; stack := "Error: lost" |}
    = ([LoggerError "Error: lost"], Returned tt).
Proof.
  split.
  - refine (proj1 (connection_error_reporting _) _).
    exists "connect ", " 127.0.0.1:6379". reflexivity.
  - refine (proj2 (connection_error_reporting _) _).
    intros H. apply RegExp_test_spec in H. vm_compute in H. discriminate.
Defined.


Lemma auto_save_gating_witness :
  (∃ before after,
     trace (module_exports (R := Node.runtime) ∅) = before ++ SetAutoSave false :: after ∧
     Forall (λ ev, is_log ev = true ∨ is_create ev = true) before ∧
     Forall (λ ev, is_set_auto_save ev = false) after) ∧
  none_before_connected is_write
    (session (R := Node.runtime) true ∅
       [ClientConnect; AutoSave (VObj [("a", VNum 1)]); GetReply None None;
        AutoSave (VObj [("a", VNum 1)])]) = true.
Proof.
  split.
  - refine (proj1 (auto_save_gating (R := Node.runtime) true ∅ []) _
              {| info := Node.url_parse "redis://localhost:6379"; prefix := "hubot" |} _).
    vm_compute; reflexivity.
  - refine (proj2 (proj2 (auto_save_gating (R := Node.runtime) true ∅ _)) _).
    vm_compute; reflexivity.
Defined.

(** C3, as stated, fails: the save handler does not look at the auto-save
    mode, so a ['save'] event that the host emits before the first load
    (its [save] method, or its [close]) is written at once. *)
Lemma explicit_save_is_written :
  none_before_connected is_write
    (session (R := Node.runtime) true ∅ [BrainSave (VObj [("a", VNum 1)])]) = false.
Proof. vm_compute; reflexivity. Qed.


(** ** Further properties of the script *)

Section MoreScriptFacts.
Context {R : NodeRuntime}.

(** *** The prefix and the storage key *)

Lemma or_else_nonempty (x : option string) (d : string) :
  d ≠ "" → or_else x d ≠ "".
Proof.
  intros Hd. unfold or_else. destruct x as [[|c s]|]; try done.
Qed.

(** X1. Whatever the parsed URL is, the prefix is not the empty string, so
    the storage key is never the bare [:storage]. *)
Theorem prefix_never_empty (i : UrlObject) :
  prefix_of i ≠ "" ∧
  ∀ env a, result (connect env i) = Returned a → storage_key a ≠ ":storage".
Proof.
  assert (prefix_of i ≠ "") as Hp.
  { unfold prefix_of. destruct (decide _); by apply or_else_nonempty. }
  split; [done|]. intros env a. rewrite connect_result. intros [= <-].
  unfold storage_key. cbn [prefix]. intros H%(f_equal String.length).
  rewrite append_length in H. destruct (prefix_of i); [done|]. simpl in H. lia.
Qed.

(** *** Every callback on its own *)

(** Every path through every callback. *)
Ltac callback_paths i :=
  destruct i; cbn [react];
  unfold on_connect, on_error, auth_callback, getData_callback, on_save, on_close, getData;
  repeat case_match; cbn.

(** A property of each event of an explicit trace. *)
Ltac each_event :=
  repeat (apply Forall_cons; split); try apply Forall_nil; try done.

(** The keys a callback uses. *)
Lemma react_keys (a : adapter) (flag : bool) (i : input) :
  Forall (λ ev, ∀ key, key_of ev = Some key → key = storage_key a)
         (trace (react a flag i)).
Proof.
  callback_paths i;
    repeat (apply Forall_cons; split); try apply Forall_nil;
    first [done | intros key Hk; by simplify_eq/=].
Qed.

(** A property of every event of every callback holds of the whole run. *)
Lemma run_Forall (P : event → Prop) (halt : bool) (a : adapter)
    (ins : list input) (flag : bool) :
  (∀ flag' i, i ∈ ins → Forall P (trace (react a flag' i))) →
  Forall P (run halt a flag ins).
Proof.
  revert flag. induction ins as [|i ins IH]; intros flag Hall; [constructor|].
  simpl. pose proof (Hall flag i ltac:(left)) as Hi.
  assert (∀ flag', Forall P (run halt a flag' ins)) as Hrest.
  { intros flag'. apply IH. intros f j Hj. apply Hall. by right. }
  destruct (react a flag i) as [t [[]|e]]; simpl in Hi.
  - apply Forall_app. by split.
  - destruct halt; [done|]. apply Forall_app. by split.
Qed.

(** The events of the start-up. *)
Lemma module_exports_Forall (P : event → Prop) (env : environment) :
  (∀ msg, P (LoggerInfo msg)) →
  (∀ p, P (CreateClientSocket p)) → (∀ p h f, P (CreateClient p h f)) →
  P (SetAutoSave false) → (∀ p, P (ClientAuth p)) →
  (∀ n, P (ClientOn n)) → (∀ n, P (BrainOn n)) →
  Forall P (trace (module_exports env)).
Proof.
  intros Hlog Hsock Hclient Hoff Hauth Hcon Hbon.
  destruct (module_exports env) as [t [a|e]] eqn:Hm.
  - apply module_exports_returned in Hm as (msg & url & -> & _). simpl.
    constructor; [done|]. rewrite connect_trace.
    repeat (apply Forall_app; split).
    + destruct (truthy_str _); repeat constructor; done.
    + constructor; [|by repeat constructor].
      by destruct (create_client_cases env (Url_parse url)) as [-> | [flag ->]].
    + destruct (truthy_str _); repeat constructor; done.
    + repeat constructor; done.
  - apply module_exports_threw in Hm as [msg ->]. by repeat constructor.
Qed.

Lemma session_Forall (P : event → Prop) (halt : bool) (env : environment)
    (ins : list input) :
  Forall P (trace (module_exports env)) →
  (∀ a flag i, result (module_exports env) = Returned a → i ∈ ins →
               Forall P (trace (react a flag i))) →
  Forall P (session halt env ins).
Proof.
  intros Hstart Hreact. unfold session.
  destruct (module_exports env) as [t [a|e]]; simpl in *; [|done].
  apply Forall_app. split; [done|]. apply run_Forall. intros f i Hi. by apply Hreact.
Qed.

(** X3. In a whole session every [GET] and every [SET] is on the one key
    prefix:storage, where the prefix is the one the start-up computed: no
    other key is read or written, whatever events arrive. *)
Theorem only_the_storage_key (halt : bool) (env : environment) (ins : list input) :
  Forall (λ ev, ∀ key, key_of ev = Some key →
                ∃ a, result (module_exports env) = Returned a ∧
                     key = prefix a +:+ ":storage")
         (session halt env ins).
Proof.
  apply session_Forall.
  - by apply module_exports_Forall.
  - intros a flag i Ha _. eapply Forall_impl; [apply react_keys|].
    intros ev Hev key Hkey. exists a. split; [done|]. by apply Hev.
Qed.

Lemma filter_none (p : event → bool) (t : list event) :
  Forall (λ ev, p ev = false) t → List.filter p t = [].
Proof. induction 1 as [|ev t Hev _ IH]; [done|]. simpl. by rewrite Hev. Qed.

(** X15. The set-up happens once, while the script is loaded: no callback
    ever constructs a client, authenticates or registers a handler, so a
    session has at most one client and at most one authenticate command,
    however often the client reconnects. *)
Theorem setup_happens_once (halt : bool) (env : environment) (ins : list input) :
  List.filter is_setup (session halt env ins)
    = List.filter is_setup (trace (module_exports env)) ∧
  count is_create (session halt env ins) ≤ 1 ∧
  count is_auth (session halt env ins) ≤ 1.
Proof.
  assert (∀ a flag, Forall (λ ev, is_setup ev = false) (run halt a flag ins)) as Hrun.
  { intros a flag. apply run_Forall. intros f i _. callback_paths i; each_event. }
  assert (∀ p, (∀ ev, p ev = true → is_setup ev = true) →
            List.filter p (session halt env ins)
            = List.filter p (trace (module_exports env))) as Hsame.
  { intros p Hp. unfold session. destruct (module_exports env) as [t [a|e]]; [|done].
    simpl. rewrite List.filter_app, (filter_none p (run _ _ _ _)), app_nil_r; [done|].
    eapply Forall_impl; [apply Hrun|]. intros ev Hev. simpl in Hev.
    destruct (p ev) eqn:Hpe; [|done]. by rewrite (Hp _ Hpe) in Hev. }
  split; [by apply Hsame|]. unfold count.
  rewrite !Hsame by (intros ev; unfold is_setup; intros ->; by rewrite ?orb_true_r).
  destruct (module_exports env) as [t [a|e]] eqn:Hm.
  - apply module_exports_returned in Hm as (msg & url & -> & _). simpl.
    rewrite connect_trace.
    destruct (create_client_cases env (Url_parse url)) as [-> | [f ->]];
      by destruct (truthy_str (env !! _)), (truthy_str (auth _)); simpl; lia.
  - apply module_exports_threw in Hm as [msg ->]. simpl. lia.
Qed.

(** *** Saving *)

Lemma redis_run_app (db : database) (t1 t2 : list event) :
  redis_run db (t1 ++ t2) = redis_run (redis_run db t1) t2.
Proof. apply fold_left_app. Qed.

Lemma redis_run_no_write (db : database) (t : list event) :
  Forall (λ ev, is_write ev = false) t → redis_run db t = db.
Proof.
  induction 1 as [|ev t Hev _ IH]; [done|]. unfold redis_run in *. simpl.
  by destruct ev.
Qed.

(** A run of ['save'] events only: one [SET] for each, in order. *)
Lemma run_saves (halt : bool) (a : adapter) (flag : bool) (payloads : list value) :
  run halt a flag (saves payloads) =
    map (λ d, ClientSet (storage_key a)
                (JSON_stringify (if truthy d then d else VObj []))) payloads.
Proof.
  revert flag. induction payloads as [|d payloads IH]; intros flag; [done|].
  simpl. unfold on_save. rewrite IH. by destruct (truthy d).
Qed.

(** X2. The last save wins: after any sequence of ['save'] events the
    database differs from the one before only at the key prefix:storage,
    which holds the text of the last snapshot (of the empty object when
    that snapshot is absent). *)
Theorem last_save_wins (halt : bool) (a : adapter) (flag : bool) (db : database)
    (payloads : list value) (d : value) :
  redis_run db (run halt a flag (saves (payloads ++ [d]))) =
    <[prefix a +:+ ":storage" := JSON_stringify (if truthy d then d else VObj [])]> db.
Proof.
  rewrite run_saves. revert db.
  induction payloads as [|d' payloads IH]; intros db; [done|].
  simpl. unfold redis_run in *. simpl. rewrite IH. apply insert_insert_eq.
Qed.

(** X4. An absent snapshot round-trips as the empty object: with a
    runtime whose JSON round-trips, a ['save'] event whose payload is falsy
    writes the text of the empty object, and the next load merges the
    empty object through the path of retrieved data. *)
Theorem absent_snapshot_loads_empty (a : adapter) (db : database) (d : value) :
  JSON_round_trip R → truthy d = false →
  load a (redis_run db (trace (on_save a d))) =
    ([ClientGet (prefix a +:+ ":storage");
      LoggerInfo ("hubot-redis-brain: Data for " +:+ prefix a +:+
                  " brain retrieved from Redis");
      MergeData (VObj []); BrainEmit "connected"; SetAutoSave true], Returned tt).
Proof.
  intros HR Hd. destruct (HR (VObj []) eq_refl) as [Hparse Hne].
  unfold on_save. rewrite Hd. unfold load, getData. cbn.
  rewrite lookup_insert_eq. unfold getData_callback.
  destruct (JSON_stringify (VObj [])) as [|c s] eqn:Htext; [done|].
  cbn [truthy_str String.eqb negb]. by rewrite Hparse.
Qed.

(** X5. Without a ['save'] event nothing is written: a session whose
    inputs hold no save leaves every database as it was. *)
Theorem no_save_no_write (halt : bool) (env : environment) (ins : list input)
    (db : database) :
  forallb (λ i, negb (is_save i)) ins = true →
  redis_run db (session halt env ins) = db.
Proof.
  intros Hins. apply redis_run_no_write. apply session_Forall.
  - by apply module_exports_Forall.
  - intros a flag i _ Hi. rewrite forallb_forall in Hins.
    apply list_elem_of_In, Hins, negb_true_iff in Hi.
    callback_paths i; each_event.
Qed.

(** *** Counting loads and quits *)

Lemma count_app (p : event → bool) (t1 t2 : list event) :
  count p (t1 ++ t2) = count p t1 + count p t2.
Proof. unfold count. by rewrite List.filter_app, length_app. Qed.

(** When every callback makes as many [p]-calls as the weight of its
    input, a run makes at most the total weight, and exactly that when no
    exception stops it. *)
Lemma run_count (p : event → bool) (w : input → bool) (halt : bool) (a : adapter)
    (ins : list input) (flag : bool) :
  (∀ flag' i, count p (trace (react a flag' i)) = if w i then 1 else 0) →
  count p (run halt a flag ins) ≤ length (List.filter w ins) ∧
  (halt = false → count p (run halt a flag ins) = length (List.filter w ins)).
Proof.
  intros Hw. revert flag. induction ins as [|i ins IH]; intros flag; [done|].
  simpl. pose proof (Hw flag i) as Hi.
  destruct (react a flag i) as [t o]; simpl in Hi.
  destruct (IH (auto_save_after t flag)) as [Hle Heq].
  assert (length (List.filter w (i :: ins)) =
          (if w i then 1 else 0) + length (List.filter w ins)) as Hlen
    by (simpl; by destruct (w i)).
  simpl in Hlen. rewrite Hlen, <- Hi.
  destruct o as [[]|e]; [|destruct halt]; rewrite ?count_app; split; try lia;
    try done; intros Hhalt; specialize (Heq Hhalt); lia.
Qed.

(** X6. Loads are not issued once but once for every trigger: in a run
    that no exception stops, the number of [GET]s is the number of
    successful authentications plus, when the URL has no credentials, the
    number of ['connect'] events (so a reconnection loads again); a run
    that stops at an exception issues at most that many. *)
Theorem loads_per_trigger (halt : bool) (a : adapter) (flag : bool) (ins : list input) :
  count is_get (run halt a flag ins) ≤ length (List.filter (issues_load a) ins) ∧
  (halt = false →
   count is_get (run halt a flag ins) = length (List.filter (issues_load a) ins)).
Proof.
  apply run_count. intros flag' i. unfold issues_load.
  callback_paths i; try done; by simplify_eq/=.
Qed.

(** X7. The connection is closed by ['close'] events and by nothing else:
    the number of [QUIT]s of a run is at most the number of ['close']
    events, and is that number when no exception stops the run. *)
Theorem quit_only_on_close (halt : bool) (a : adapter) (flag : bool) (ins : list input) :
  count is_quit (run halt a flag ins) ≤ length (List.filter is_close ins) ∧
  (halt = false →
   count is_quit (run halt a flag ins) = length (List.filter is_close ins)).
Proof.
  apply run_count. intros flag' i. callback_paths i; done.
Qed.

(** *** Loads that fail, and what is merged *)

Lemma auto_save_stays_off (t : list event) :
  Forall (λ ev, is_enable ev = false) t → auto_save_after t false = false.
Proof.
  induction 1 as [|ev t Hev _ IH]; [done|]. unfold auto_save_after in *. simpl.
  by destruct ev as [| | | | |[]| | | | | | | |].
Qed.

(** While auto-save is off and no callback enables it, it stays off
    through the run. *)
Lemma run_Forall_off (P : event → Prop) (halt : bool) (a : adapter) (ins : list input) :
  (∀ i, i ∈ ins → Forall (λ ev, P ev ∧ is_enable ev = false) (trace (react a false i))) →
  Forall P (run halt a false ins).
Proof.
  induction ins as [|i ins IH]; intros Hall; [constructor|].
  simpl. pose proof (Hall i ltac:(left)) as Hi.
  destruct (react a false i) as [t o]; simpl in Hi.
  assert (auto_save_after t false = false) as ->
    by (apply auto_save_stays_off; eapply Forall_impl; [exact Hi|]; by intros ev [_ ?]).
  assert (Forall P t) as Ht by (eapply Forall_impl; [exact Hi|]; by intros ev [? _]).
  assert (Forall P (run halt a false ins)) as Hrest
    by (apply IH; intros j Hj; apply Hall; by right).
  destruct o as [[]|e]; [|destruct halt]; try done; apply Forall_app; by split.
Qed.

(** X12. When every reply to the load is an error or a text that is not
    JSON, the session never merges anything, never signals connected and
    never enables auto-save; so the host's automatic save is never written
    either, and only an explicit ['save'] event could write. *)
Theorem failed_loads_never_connect (halt : bool) (env : environment) (ins : list input) :
  Forall failing_reply ins →
  Forall (λ ev, is_merge ev = false ∧ is_connected ev = false ∧ is_enable ev = false)
         (session halt env ins) ∧
  (forallb (λ i, negb (is_explicit_save i)) ins = true →
   Forall (λ ev, is_write ev = false) (session halt env ins)).
Proof.
  intros Hins. rewrite Forall_forall in Hins.
  assert (∀ a flag i, i ∈ ins →
            Forall (λ ev, is_merge ev = false ∧ is_connected ev = false ∧
                          is_enable ev = false) (trace (react a flag i))) as Hreact.
  { intros a flag i Hi. specialize (Hins i Hi).
    destruct i as [| | |[err|] reply| | |].
    5:{ destruct Hins as (text & -> & Hne & Hparse). cbn [react].
        rewrite (load_of_malformed_record a text Hne Hparse). each_event. }
    all: cbn [react];
      unfold on_connect, on_error, auth_callback, getData_callback, on_save, on_close,
        getData;
      repeat case_match; cbn; each_event. }
  split.
  - apply session_Forall; [by apply module_exports_Forall|].
    intros a flag i _ Hi. by apply Hreact.
  - intros Hsaves. unfold session.
    destruct (module_exports env) as [t [a|e]] eqn:Hm.
    + pose proof (module_exports_Forall (λ ev, is_write ev = false) env) as Ht.
      rewrite Hm in Ht. simpl in Ht. apply Forall_app. split; [by apply Ht|].
      assert (auto_save_after t true = false) as ->.
      { apply module_exports_returned in Hm as (msg & url & -> & _).
        rewrite connect_trace.
        by destruct (create_client_cases env (Url_parse url)) as [-> | [f ->]],
             (truthy_str (env !! _)), (truthy_str (auth _)). }
      apply run_Forall_off. intros i Hi.
      pose proof (Hreact a false i Hi) as Hq. rewrite forallb_forall in Hsaves.
      apply list_elem_of_In, Hsaves, negb_true_iff in Hi.
      assert (Forall (λ ev, is_write ev = false) (trace (react a false i))) as Hw
        by (callback_paths i; each_event).
      rewrite Forall_forall in Hq, Hw |- *. intros ev Hev.
      split; [by apply Hw|]. by apply Hq.
    + pose proof (module_exports_Forall (λ ev, is_write ev = false) env) as Ht.
      rewrite Hm in Ht. by apply Ht.
Qed.

(** X13. Nothing is merged into the brain but the empty object and what
    [JSON.parse] made of a reply that arrived without an error. *)
Theorem merged_data_comes_from_replies (halt : bool) (a : adapter) (flag : bool)
    (ins : list input) :
  Forall (λ ev, ∀ d, ev = MergeData d →
                d = VObj [] ∨
                ∃ text, GetReply None (Some text) ∈ ins ∧ JSON_parse text = Some d)
         (run halt a flag ins).
Proof.
  apply run_Forall. intros flag' i Hi.
  destruct i as [| | |err reply| | |].
  4:{ cbn [react]. unfold getData_callback.
      destruct err as [err|]; [each_event|].
      destruct reply as [[|c text]|]; cbn [truthy_str String.eqb negb].
      - cbn. each_event. intros d [= <-]. by left.
      - destruct (JSON_parse (String c text)) as [data|] eqn:Hparse; cbn; each_event.
        intros d [= <-]. right. by exists (String c text).
      - cbn. each_event. intros d [= <-]. by left. }
  all: cbn [react];
    unfold on_connect, on_error, auth_callback, on_save, on_close, getData;
    repeat case_match; cbn; each_event.
Qed.

(** *** Failures of the start-up *)

Lemma get_throws (v : value) (k : string) (e : exn) :
  get v k = Threw e → e = TypeError.
Proof. destruct v; simpl; repeat case_match; by intros [= <-]. Qed.

Lemma iterate_throws (v : value) (e : exn) :
  iterate v = Threw e → e = TypeError.
Proof. destruct v; simpl; by intros [= <-]. Qed.

Lemma find_instance_throws (instances : list value) (wanted : value) (e : exn) :
  find_instance instances wanted = Threw e → e = TypeError.
Proof.
  induction instances as [|x xs IH]; simpl; [done|].
  destruct (get x "name") as [name|e'] eqn:Hname.
  - destruct (strict_equal name wanted); [done|apply IH].
  - intros [= <-]. by apply get_throws in Hname.
Qed.

(** Whatever goes wrong in [buildCloudFoundryURL] is a [TypeError]. *)
Lemma buildCloudFoundryURL_throws (env : environment) (e : exn) :
  buildCloudFoundryURL env = Threw e → e = TypeError.
Proof.
  unfold buildCloudFoundryURL.
  repeat (match goal with
          | |- obind ?o _ = Threw _ → _ =>
              let H := fresh "H" in destruct o eqn:H; cbn [obind];
              [|intros [= <-];
                first [by apply get_throws in H
                      |by apply iterate_throws in H
                      |by apply find_instance_throws in H
                      |by (case_match; [apply get_throws in H|])]]
          end).
  done.
Qed.


(** What a property of a string can be: its length, one of its
    characters, or nothing. *)
Lemma get_of_string (s k : string) :
  (∃ n, get (VStr s) k = Returned (VNum n)) ∨
  get (VStr s) k = Returned VUndefined ∨
  ∃ c, get (VStr s) k = Returned (VStr (String c "")).
Proof.
  simpl. destruct (String.eqb k "length"); [left; eauto|right].
  destruct (array_index k) as [n|]; [|by left]. simpl.
  unfold chars. rewrite list_lookup_fmap.
  destruct (list_ascii_of_string s !! n) as [c|]; [right; eauto|by left].
Qed.

(** X9. The descriptor has to be JSON: when VCAP_SERVICES is not set, or
    holds a text that [JSON.parse] rejects, the fallback of the [try]
    block never leads to a URL; [buildCloudFoundryURL] throws a
    [TypeError], whatever the two other variables hold. *)
Theorem descriptor_must_parse (env : environment) :
  env !! "VCAP_SERVICES" = None ∨
  (∃ text, env !! "VCAP_SERVICES" = Some text ∧ JSON_parse text = None) →
  buildCloudFoundryURL env = Threw TypeError.
Proof.
  intros [Hnone | (text & Htext & Hparse)];
    unfold buildCloudFoundryURL, vcap_services.
  - by rewrite Hnone.
  - rewrite Htext, Hparse.
    destruct (get_of_string text (to_string (env_value env "CF_REDIS_SERVICE")))
      as [[n ->] | [-> | [c ->]]]; [done..|].
    cbn [obind iterate chars list_ascii_of_string map find_instance].
    change (get (VStr (String c "")) "name") with (Returned VUndefined).
    destruct (env_value env "CF_REDIS_INSTANCE_NAME"); done.
Qed.


(** *** Credentials and the socket form *)

Lemma String_split_nonempty (sep : ascii) (s : string) : String_split sep s ≠ [].
Proof.
  induction s as [|c s IH]; [done|]. simpl.
  destruct (Ascii.eqb c sep); [done|]. by destruct (String_split sep s).
Qed.

Lemma String_split_two (sep : ascii) (s : string) :
  has_char sep s = true → ∃ x y l, String_split sep s = x :: y :: l.
Proof.
  unfold has_char. induction s as [|c s IH]; [done|]. simpl.
  rewrite Ascii.eqb_sym. destruct (Ascii.eqb c sep) eqn:Hc; simpl.
  - intros _. pose proof (String_split_nonempty sep s).
    destruct (String_split sep s) as [|y l]; [done|]. by exists "", y, l.
  - intros Hs. destruct (IH Hs) as (x & y & l & ->). by exists (String c x), y, l.
Qed.

(** X11. The authenticate command goes out without a password exactly
    when the credentials hold no colon; with a colon a password is always
    sent, possibly the empty one. *)
Theorem auth_password_none_iff (credentials : string) :
  (auth_password credentials = None ↔ has_char ":" credentials = false) ∧
  (∀ user, has_char ":" user = false →
           auth_password (user +:+ ":") = Some "").
Proof.
  unfold auth_password. split; [split|].
  - intros Hnone. destruct (has_char ":" credentials) eqn:Hc; [|done].
    destruct (String_split_two _ _ Hc) as (x & y & l & Hs). by rewrite Hs in Hnone.
  - intros Hc. by rewrite (String_split_no_sep _ _ Hc).
  - intros user Hu.
    rewrite <- (append_nil_r (user +:+ ":")), append_assoc.
    by rewrite (String_split_first _ _ _ Hu).
Qed.

(** X14. In the socket form the option that skips the ready check is
    never passed: the client is constructed on the socket path alone, also
    when REDIS_NO_CHECK is set and the script has logged that it turns the
    ready checks off, and also when the URL carries credentials, with
    which it still authenticates. *)
Theorem socket_form_keeps_ready_check (env : environment) (i : UrlObject) :
  hostname i = Some "" →
  List.filter is_create (trace (connect env i)) = [CreateClientSocket (pathname i)] ∧
  (is_set env "REDIS_NO_CHECK" = true →
   head (trace (connect env i)) = Some (LoggerInfo "Turning off redis ready checks")) ∧
  (∀ credentials, auth i = Some credentials → credentials ≠ "" →
   List.filter is_auth (trace (connect env i)) = [ClientAuth (auth_password credentials)]).
Proof.
  intros Hh. rewrite connect_trace. unfold create_client, is_set.
  rewrite decide_True by done. split; [|split].
  - by destruct (truthy_str (env !! _)), (truthy_str (auth i)).
  - by intros ->.
  - intros credentials Hauth Hne. rewrite Hauth.
    assert (truthy_str (Some credentials) = true) as -> by by destruct credentials.
    by destruct (truthy_str (env !! _)).
Qed.

End MoreScriptFacts.

(** ** The further properties on concrete inputs *)

Lemma prefix_never_empty_witness :
  storage_key {| info := Node.url_parse "redis://cache:6379/";
                 prefix := prefix_of (Node.url_parse "redis://cache:6379/") |}
    ≠ ":storage".
Proof.
  refine (proj2 (prefix_never_empty (Node.url_parse "redis://cache:6379/")) ∅ _ _).
  vm_compute; reflexivity.
Defined.

Lemma only_the_storage_key_witness :
  Forall (λ ev, ∀ key, key_of ev = Some key →
                ∃ a, result (module_exports (R := Node.runtime)
                               {["REDIS_URL" := "redis://cache:6379/bot"]}) = Returned a ∧
                     key = prefix a +:+ ":storage")
         (session (R := Node.runtime) true {["REDIS_URL" := "redis://cache:6379/bot"]}
            [ClientConnect; GetReply None None; BrainSave (VObj [("a", VNum 1)])]).
Proof. exact (only_the_storage_key (R := Node.runtime) true _ _). Defined.

Lemma absent_snapshot_loads_empty_witness :
  let a := {| info := Node.url_parse "redis://localhost:6379"; prefix := "hubot" |} in
  load (R := Node.runtime) a (redis_run ∅ (trace (on_save (R := Node.runtime) a VNull))) =
    ([ClientGet "hubot:storage";
      LoggerInfo "hubot-redis-brain: Data for hubot brain retrieved from Redis";
      MergeData (VObj []); BrainEmit "connected"; SetAutoSave true], Returned tt).
Proof.
  intros a.
  refine (absent_snapshot_loads_empty (R := Node.runtime) a ∅ VNull node_round_trip _).
  vm_compute; reflexivity.
Defined.

Lemma no_save_no_write_witness :
  redis_run {["hubot:storage" := "kept"]}
    (session (R := Node.runtime) true ∅
       [ClientConnect; GetReply None (Some "kept"); ClientConnect; BrainClose])
  = {["hubot:storage" := "kept"]}.
Proof.
  refine (no_save_no_write (R := Node.runtime) true ∅ _ _ _). vm_compute; reflexivity.
Defined.

Lemma loads_per_trigger_witness :
  count is_get
    (run (R := Node.runtime) false
       {| info := Node.url_parse "redis://cache:6379"; prefix := "hubot" |} false
       [ClientConnect; GetReply None None; ClientConnect]) = 2.
Proof.
  refine (proj2 (loads_per_trigger (R := Node.runtime) false _ false _) _). reflexivity.
Defined.

Lemma quit_only_on_close_witness :
  count is_quit
    (run (R := Node.runtime) false
       {| info := Node.url_parse "redis://cache:6379"; prefix := "hubot" |} false
       [ClientConnect; BrainSave VNull; BrainClose]) = 1.
Proof.
  refine (proj2 (quit_only_on_close (R := Node.runtime) false _ false _) _). reflexivity.
Defined.


Lemma descriptor_must_parse_witness :
  buildCloudFoundryURL (R := Node.runtime)
    {["VCAP_SERVICES" := "p-redis=10.0.0.1"; "CF_REDIS_SERVICE" := "length";
      "CF_REDIS_INSTANCE_NAME" := "bot"]} = Threw TypeError.
Proof.
  refine (descriptor_must_parse (R := Node.runtime) _ _).
  right. exists "p-redis=10.0.0.1". split; vm_compute; reflexivity.
Defined.


Lemma auth_password_none_iff_witness :
  auth_password "token" = None ∧ auth_password "user:" = Some "".
Proof.
  split.
  - refine (proj2 (proj1 (auth_password_none_iff "token")) _). reflexivity.
  - refine (proj2 (auth_password_none_iff "") "user" _). reflexivity.
Defined.

Lemma failed_loads_never_connect_witness :
  Forall (λ ev, is_write ev = false)
    (session (R := Node.runtime) true ∅
       [ClientConnect; GetReply None (Some "not json"); AutoSave (VObj [("a", VNum 1)])]).
Proof.
  refine (proj2 (failed_loads_never_connect (R := Node.runtime) true ∅ _ _) _).
  - repeat constructor. exists "not json". repeat split; vm_compute; (reflexivity || discriminate).
  - vm_compute; reflexivity.
Defined.

Lemma merged_data_comes_from_replies_witness :
  let a := {| info := Node.url_parse "redis://localhost:6379"; prefix := "hubot" |} in
  let ins := [ClientConnect; GetReply None (Some (Node.stringify (VObj [("a", VNum 1)])))] in
  Forall (λ ev, ∀ d, ev = MergeData d →
                d = VObj [] ∨
                ∃ text, GetReply None (Some text) ∈ ins ∧
                        JSON_parse (NodeRuntime := Node.runtime) text = Some d)
         (run (R := Node.runtime) true a false ins).
Proof. intros a ins. exact (merged_data_comes_from_replies (R := Node.runtime) true a false ins). Defined.

Lemma socket_form_keeps_ready_check_witness :
  let i := Node.url_parse "redis://:pw@/tmp/redis.sock" in
  List.filter is_create (trace (connect {["REDIS_NO_CHECK" := "1"]} i))
    = [CreateClientSocket (Some "/tmp/redis.sock")] ∧
  head (trace (connect {["REDIS_NO_CHECK" := "1"]} i))
    = Some (LoggerInfo "Turning off redis ready checks").
Proof.
  intros i.
  assert (hostname i = Some "") as Hh by (vm_compute; reflexivity).
  split.
  - exact (proj1 (socket_form_keeps_ready_check _ i Hh)).
  - refine (proj1 (proj2 (socket_form_keeps_ready_check _ i Hh)) _).
    vm_compute; reflexivity.
Defined.
